(** * Query planning of the Cassandra query benchmarker

    A shallow embedding of [query_benchmarker_cassandra/query.go]: the
    high-level query [HLQuery], its translation [ToQueryPlan] into a plan of
    prepared CQL statements, and the statement builder [NewCQLQuery].

    Conventions.
    - [time.Time] is modelled by the instant it denotes, an integer number of
      nanoseconds since the Unix epoch ([Time := Z]).  The location and the
      monotonic reading of a Go [time.Time] play no role in [Before], [After]
      and [UnixNano].  They do play one in [==], which the map of buckets
      applies to its keys: two intervals over the same instants are one key
      here, and in Go only when their times also agree in location and
      encoding, as times do that are derived from one time by [Add].
    - [time.Duration] is an [int64] count of nanoseconds; it is a [Z] here.
    - [[]byte] and [string] are both [string] (a sequence of bytes), so the
      conversions [string(q.MeasurementName)] are the identity.
    - a Go [map[TimeInterval][]T] is a [gmap TimeInterval (list T)]; reading
      an absent key gives the nil slice, written [default [] (m !! k)]. *)

From Stdlib Require Import ZArith Ascii String List Permutation.
From stdpp Require Import gmap strings list fin_maps.

Local Open Scope string_scope.
Local Open Scope list_scope.
Local Open Scope Z_scope.

(** ** Time *)

Definition Time := Z.
Definition Duration := Z.

(** [t.Before(u)] and [t.After(u)]. *)
Definition Before (t u : Time) : bool := t <? u.
Definition After (t u : Time) : bool := u <? t.

(** Two's-complement reduction to a signed 64-bit integer. *)
Definition wrap64 (z : Z) : Z := (z + 2 ^ 63) mod 2 ^ 64 - 2 ^ 63.

Definition int64_range (z : Z) : Prop := - 2 ^ 63 <= z < 2 ^ 63.

(** [t.UnixNano()]: the instant as an [int64] number of nanoseconds.  Go
    computes it with 64-bit arithmetic, hence the reduction. *)
Definition UnixNano (t : Time) : Z := wrap64 t.

(** ** Data model *)

(** [HLQuery], field by field. *)
Record HLQuery := {
  HumanLabel : string;
  HumanDescription : string;
  ID : Z;
  MeasurementName : string;
  FieldName : string;
  AggregationType : string;
  TimeStart : Time;
  TimeEnd : Time;
  GroupByDuration : Duration;
  TagSets : list (list string)
}.

(** An element of [Args []interface{}]: [NewCQLQuery] stores one [string] and
    two [int64] values there. *)
Inductive Arg :=
| ArgString (s : string)
| ArgInt64 (n : Z).

(** [CQLQuery] wraps the data needed to execute a query. *)
Record CQLQuery := {
  PreparableQueryString : string;
  Args : list Arg
}.

(** The constant tail of the format string of [NewCQLQuery]. *)
Definition whereClause : string :=
  " WHERE series_id = ? AND timestamp_ns >= ? AND timestamp_ns < ?".

(** [fmt.Sprintf] of the format
    ["SELECT %s(value) FROM %s WHERE series_id = ? AND timestamp_ns >= ? AND
    timestamp_ns < ?"]: the verb [%s] writes a string argument as it is. *)
Definition statementText (aggrLabel tableName : string) : string :=
  "SELECT " +:+ aggrLabel +:+ "(value) FROM " +:+ tableName +:+ whereClause.

(** [NewCQLQuery] builds a [CQLQuery], using prepared CQL statements. *)
Definition NewCQLQuery (aggrLabel tableName rowName : string)
    (timeStartNanos timeEndNanos : Z) : CQLQuery :=
  let preparableQueryString := statementText aggrLabel tableName in
  let args := [ArgString rowName; ArgInt64 timeStartNanos; ArgInt64 timeEndNanos] in
  {| PreparableQueryString := preparableQueryString; Args := args |}.

(** ** Types and helpers that [query.go] uses and does not define *)

(** Modelled from the spec: the type [TimeInterval] is not in [query.go],
    which only reads its fields [Start] and [End] and uses it as a map key.
    The spec (section 3 and the design notes) makes it an immutable value
    with equality over (start, end). *)
Record TimeInterval := NewTimeInterval {
  Start : Time;
  End : Time
}.

#[global] Instance TimeInterval_eq_dec : EqDecision TimeInterval.
Proof. solve_decision. Defined.

#[global] Instance TimeInterval_countable : Countable TimeInterval.
Proof.
  refine (inj_countable' (fun ti => (Start ti, End ti))
            (fun p => NewTimeInterval p.1 p.2) _).
  by intros [].
Defined.

(** Modelled from the spec: the type [Series] is not in [query.go], which
    reads its fields [Table] and [Id].  The other attributes are those of
    section 3: measurement name, field name, tag set and validity window. *)
Record Series := {
  Table : string;
  Id : string;
  Measurement : string;
  Field : string;
  Tags : gset string;
  Window : TimeInterval
}.

(** Modelled from the spec: [ClientSideIndex] and [CopyOfSeriesCollection]
    are not in [query.go].  The catalog holds the known series and its
    snapshot is an independent copy of that collection (section 4.2). *)
Record ClientSideIndex := {
  seriesCollection : list Series
}.

Definition CopyOfSeriesCollection (csi : ClientSideIndex) : list Series :=
  seriesCollection csi.

(** Modelled from the spec: [MatchesMeasurementName] is not in [query.go];
    section 4.2 makes it exact equality with the series' measurement name. *)
Definition MatchesMeasurementName (s : Series) (name : string) : bool :=
  bool_decide (Measurement s = name).

(** Modelled from the spec: [MatchesFieldName] is not in [query.go];
    section 4.2 makes it exact equality with the series' field name. *)
Definition MatchesFieldName (s : Series) (name : string) : bool :=
  bool_decide (Field s = name).

(** A series satisfies a tag predicate when the tag is in its tag set. *)
Definition hasTag (s : Series) (tag : string) : bool :=
  bool_decide (tag ∈ Tags s).

(** Some group of the filter has all its tag predicates satisfied. *)
Definition someGroupSatisfied (s : Series) (tagSets : list (list string)) : bool :=
  existsb (fun tagSet => forallb (hasTag s) tagSet) tagSets.

(** Modelled from the spec: [MatchesTagSets] is not in [query.go].  Section
    4.2: a filter without groups matches every series; otherwise the series
    matches if at least one group has all its tag predicates satisfied (OR
    of ANDs).  The comment on the field [HLQuery.TagSets] in [query.go]
    words the combination the other way round; the body that decides is not
    in [query.go]. *)
Definition MatchesTagSets (s : Series) (tagSets : list (list string)) : bool :=
  match tagSets with
  | [] => true
  | _ :: _ => someGroupSatisfied s tagSets
  end.

(** Two half-open ranges have a time in common: the later of the two starts
    is before the earlier of the two ends. *)
Definition Overlap (a b : TimeInterval) : bool :=
  Z.max (Start a) (Start b) <? Z.min (End a) (End b).

(** Modelled from the spec: [MatchesTimeInterval] is not in [query.go];
    section 4.2 asks that the validity window of the series and the given
    interval have a non-empty intersection. *)
Definition MatchesTimeInterval (s : Series) (ti : TimeInterval) : bool :=
  Overlap (Window s) ti.

(** The loop of the time bucketer: intervals of the given width from [cur]
    on, until the start of the next one reaches or passes [stop]. *)
Fixpoint bucketLoop (fuel : nat) (cur stop : Time) (window : Duration)
    : list TimeInterval :=
  match fuel with
  | O => []
  | S fuel' =>
      if Before cur stop
      then NewTimeInterval cur (cur + window)
             :: bucketLoop fuel' (cur + window) stop window
      else []
  end.

(** Modelled from the spec: [bucketTimeIntervals] is not in [query.go].
    Section 4.1: a zero width gives the single interval [start, end]; so does
    [start = end] (the degenerate interval); otherwise interval [k] is
    [start + k * width, start + (k+1) * width), until the start of an
    interval would reach or pass [end].  Its contract is [start <= end] and
    [0 <= width].  A range with [end] before [start] is kept as it is, and
    not clamped, so that the assembly of the plan can report it (section 7).
    A positive width advances by at least one nanosecond, so [end - start]
    iterations are enough. *)
Definition bucketTimeIntervals (start end_ : Time) (window : Duration)
    : list TimeInterval :=
  if (window =? 0) || (end_ <=? start)
  then [NewTimeInterval start end_]
  else bucketLoop (Z.to_nat (end_ - start)) start end_ window.

(** [QueryPlan]: the aggregation label and, per time bucket, the queries. *)
Record QueryPlan := {
  AggregatorLabel : string;
  BucketedCQLQueries : gmap TimeInterval (list CQLQuery)
}.

Inductive error :=
| PlanAssemblyFailure.

(** An interval whose end is not before its start. *)
Definition wellFormed (ti : TimeInterval) : bool := Start ti <=? End ti.

(** Modelled from the spec: [NewQueryPlan] is not in [query.go].  Section
    4.3 (step 5) and section 7: it assembles the plan from the label and the
    buckets, and reports a failure for an inconsistent bucket set; the
    inconsistency a map of buckets can show is a malformed interval, one
    with its end before its start. *)
Definition NewQueryPlan (aggrLabel : string)
    (bucketedCQLQueries : gmap TimeInterval (list CQLQuery))
    : QueryPlan + error :=
  if forallb wellFormed (map fst (map_to_list bucketedCQLQueries))
  then inl {| AggregatorLabel := aggrLabel;
              BucketedCQLQueries := bucketedCQLQueries |}
  else inr PlanAssemblyFailure.

(** ** [ToQueryPlan] *)

Abbreviation SeriesBuckets := (gmap TimeInterval (list Series)).
Abbreviation CQLBuckets := (gmap TimeInterval (list CQLQuery)).

(** Lines 48-51: every bucket is populated, with an empty slice. *)
Definition emptyBuckets (tis : list TimeInterval) : SeriesBuckets :=
  foldl (fun bucketedSeries ti => <[ti := []]> bucketedSeries) ∅ tis.

(** Lines 68-73: the inner loop, which appends [s] to each bucket whose
    interval it matches.  [bucketedSeries[ti]] of an absent key is nil. *)
Definition placeSeries (tis : list TimeInterval) (bucketedSeries : SeriesBuckets)
    (s : Series) : SeriesBuckets :=
  foldl (fun bucketedSeries ti =>
           if negb (MatchesTimeInterval s ti) then bucketedSeries
           else <[ti := default [] (bucketedSeries !! ti) ++ [s]]> bucketedSeries)
        bucketedSeries tis.

(** Lines 56-73: one iteration of the loop over the known series; each
    [continue] leaves the buckets as they are. *)
Definition seriesStep (q : HLQuery) (tis : list TimeInterval)
    (bucketedSeries : SeriesBuckets) (s : Series) : SeriesBuckets :=
  if negb (MatchesMeasurementName s (MeasurementName q)) then bucketedSeries
  else if negb (MatchesFieldName s (FieldName q)) then bucketedSeries
  else if negb (MatchesTagSets s (TagSets q)) then bucketedSeries
  else placeSeries tis bucketedSeries s.

(** Lines 48-74: the buckets, populated and then filled by the loop over
    the known series. *)
Definition bucketSeries (q : HLQuery) (tis : list TimeInterval)
    (seriesChoices : list Series) : SeriesBuckets :=
  foldl (seriesStep q tis) (emptyBuckets tis) seriesChoices.

(** Lines 81-91: the bounds of a bucket, moved into the range of the query
    that starts at [timeStart] and ends at [timeEnd]. *)
Definition clampedStart (timeStart : Time) (ti : TimeInterval) : Time :=
  let start := Start ti in
  if Before start timeStart then timeStart else start.

Definition clampedEnd (timeEnd : Time) (ti : TimeInterval) : Time :=
  let end_ := End ti in
  if After end_ timeEnd then timeEnd else end_.

(** Line 93: the query of one series in one bucket. *)
Definition cqlQueryOf (q : HLQuery) (ti : TimeInterval) (ser : Series) : CQLQuery :=
  NewCQLQuery (AggregationType q) (Table ser) (Id ser)
    (UnixNano (clampedStart (TimeStart q) ti)) (UnixNano (clampedEnd (TimeEnd q) ti)).

(** Lines 79-94: [cqlQueries[i]] is the query of [seriesSlice[i]]. *)
Definition cqlQueries (q : HLQuery) (ti : TimeInterval) (seriesSlice : list Series)
    : list CQLQuery :=
  map (cqlQueryOf q ti) seriesSlice.

(** Lines 77-96: the loop over the entries of [bucketedSeries], in the order
    [entries] in which the map hands them out. *)
Definition cqlBucketsOf (q : HLQuery) (entries : list (TimeInterval * list Series))
    : CQLBuckets :=
  foldl (fun cqlBuckets e => <[e.1 := cqlQueries q e.1 e.2]> cqlBuckets) ∅ entries.

(** Lines 76-99, for a given order of iteration over [bucketedSeries]. *)
Definition planOfEntries (q : HLQuery) (entries : list (TimeInterval * list Series))
    : QueryPlan + error :=
  NewQueryPlan (AggregationType q) (cqlBucketsOf q entries).

(** The buckets of the query, line 47. *)
Definition bucketsOf (q : HLQuery) : list TimeInterval :=
  bucketTimeIntervals (TimeStart q) (TimeEnd q) (GroupByDuration q).

(** Lines 41-74: the series of the snapshot, per bucket. *)
Definition bucketedSeriesOf (q : HLQuery) (csi : ClientSideIndex) : SeriesBuckets :=
  bucketSeries q (bucketsOf q) (CopyOfSeriesCollection csi).

(** [ToQueryPlan] combines an [HLQuery] with a [ClientSideIndex] to make a
    [QueryPlan].  The entries of the map are taken in the order of
    [map_to_list]. *)
Definition ToQueryPlan (q : HLQuery) (csi : ClientSideIndex) : QueryPlan + error :=
  planOfEntries q (map_to_list (bucketedSeriesOf q csi)).

(** Go does not fix the order in which [range] visits a map: a run of
    [ToQueryPlan] may take the entries of [bucketedSeries] in any order. *)
Inductive ToQueryPlan_run (q : HLQuery) (csi : ClientSideIndex)
    : QueryPlan + error -> Prop :=
| run_in_order (entries : list (TimeInterval * list Series)) :
    entries ≡ₚ map_to_list (bucketedSeriesOf q csi) ->
    ToQueryPlan_run q csi (planOfEntries q entries).

(** The series of a snapshot that pass the four tests for a bucket. *)
Definition matchesQuery (q : HLQuery) (s : Series) : bool :=
  MatchesMeasurementName s (MeasurementName q)
  && MatchesFieldName s (FieldName q)
  && MatchesTagSets s (TagSets q).

Definition matchesBucket (q : HLQuery) (ti : TimeInterval) (s : Series) : bool :=
  matchesQuery q s && MatchesTimeInterval s ti.

(** ** Notions used to state the properties *)

(** How often an interval occurs in the list of buckets. *)
Definition occurrences (ti : TimeInterval) (tis : list TimeInterval) : nat :=
  length (filter (fun ti' => ti' = ti) tis).

(** What the loop over the series adds to the bucket of [ti]: each series
    that passes the four tests, once per occurrence of [ti]. *)
Definition placed (q : HLQuery) (tis : list TimeInterval) (ti : TimeInterval)
    (seriesChoices : list Series) : list Series :=
  s ← seriesChoices;
  if matchesBucket q ti s then replicate (occurrences ti tis) s else [].

(** The text that precedes each placeholder [?] of a statement.  A prepared
    statement binds its arguments by position: argument [i] takes the place
    of placeholder [i]. *)
Fixpoint placeholderContexts (acc s : string) : list string :=
  match s with
  | EmptyString => []
  | String c s' =>
      if Ascii.eqb c "?"%char
      then acc :: placeholderContexts EmptyString s'
      else placeholderContexts (acc +:+ String c EmptyString) s'
  end.

(** Two results of planning agree: both are failures, or both are plans
    with the same buckets and, per bucket, the same queries up to order. *)
Definition samePlan (res res' : QueryPlan + error) : Prop :=
  match res, res' with
  | inl qp, inl qp' =>
      dom (BucketedCQLQueries qp) = dom (BucketedCQLQueries qp')
      /\ forall ti, default [] (BucketedCQLQueries qp !! ti)
                    ≡ₚ default [] (BucketedCQLQueries qp' !! ti)
  | inr e, inr e' => e = e'
  | _, _ => False
  end.

(** Interval [k] is there exactly when its start is before [end], and it is
    [start + k * width, start + (k+1) * width). *)
Definition anchoredAt (start end_ : Time) (window : Duration)
    (tis : list TimeInterval) : Prop :=
  forall k : nat,
    tis !! k
    = if start + Z.of_nat k * window <? end_
      then Some (NewTimeInterval (start + Z.of_nat k * window)
                                 (start + (Z.of_nat k + 1) * window))
      else None.

(** A time is within an interval once it is clamped to [start, end]. *)
Definition withinClamped (start end_ : Time) (ti : TimeInterval) (t : Time) : Prop :=
  clampedStart start ti <= t < clampedEnd end_ ti.

(** The intervals, each clamped to [start, end], cut the range from [start]
    to [end] into consecutive pieces: every time of the range is in a piece
    (no gap) and in one only (no overlap); the pieces stay in the range; each
    ends where the next begins; the first begins at [start] and the last
    ends at [end]. *)
Definition partitions (start end_ : Time) (tis : list TimeInterval) : Prop :=
  (forall t, start <= t < end_ ->
     exists (k : nat) ti, tis !! k = Some ti /\ withinClamped start end_ ti t)
  /\ (forall (k k' : nat) ti ti' t,
        tis !! k = Some ti -> tis !! k' = Some ti' ->
        withinClamped start end_ ti t -> withinClamped start end_ ti' t -> k = k')
  /\ (forall (k : nat) ti, tis !! k = Some ti ->
        start <= clampedStart start ti /\ clampedStart start ti <= clampedEnd end_ ti
        /\ clampedEnd end_ ti <= end_)
  /\ (forall (k : nat) ti ti', tis !! k = Some ti -> tis !! S k = Some ti' ->
        clampedEnd end_ ti = clampedStart start ti')
  /\ (exists ti, tis !! 0%nat = Some ti /\ clampedStart start ti = start)
  /\ (exists ti, last tis = Some ti /\ clampedEnd end_ ti = end_).

(** No clamped interval is empty. *)
Definition nonEmptyPieces (start end_ : Time) (tis : list TimeInterval) : Prop :=
  forall (k : nat) ti, tis !! k = Some ti ->
    clampedStart start ti < clampedEnd end_ ti.

(** ** Example data *)

Module Examples.

(** The scenario of section 8: one series, a range of two buckets. *)
Definition seriesA : Series :=
  {| Table := "cpu"; Id := "A"; Measurement := "cpu"; Field := "usage_user";
     Tags := {["host=X"]}; Window := NewTimeInterval 0 200 |}.

Definition seriesB : Series :=
  {| Table := "mem"; Id := "B"; Measurement := "mem"; Field := "used";
     Tags := {["host=X"]}; Window := NewTimeInterval 0 200 |}.

Definition query : HLQuery :=
  {| HumanLabel := "label"; HumanDescription := "description"; ID := 1;
     MeasurementName := "cpu"; FieldName := "usage_user";
     AggregationType := "avg"; TimeStart := 0; TimeEnd := 120;
     GroupByDuration := 60; TagSets := [["host=X"]] |}.

Definition index : ClientSideIndex := {| seriesCollection := [seriesB; seriesA] |}.

(** A series whose data ends before the second bucket of [query]. *)
Definition seriesC : Series :=
  {| Table := "cpu"; Id := "C"; Measurement := "cpu"; Field := "usage_user";
     Tags := {["host=X"; "region=eu"]}; Window := NewTimeInterval 0 50 |}.

Definition shortIndex : ClientSideIndex := {| seriesCollection := [seriesC] |}.

(** A catalog without any series of the measurement of [query]. *)
Definition otherIndex : ClientSideIndex := {| seriesCollection := [seriesB] |}.

(** The series of [index] in the other order. *)
Definition swappedIndex : ClientSideIndex := {| seriesCollection := [seriesA; seriesB] |}.

(** The plans of [query] over the three catalogs. *)
Definition plan : QueryPlan :=
  {| AggregatorLabel := "avg";
     BucketedCQLQueries :=
       <[NewTimeInterval 0 60 := [NewCQLQuery "avg" "cpu" "A" 0 60]]>
         (<[NewTimeInterval 60 120 := [NewCQLQuery "avg" "cpu" "A" 60 120]]> ∅) |}.

Definition shortPlan : QueryPlan :=
  {| AggregatorLabel := "avg";
     BucketedCQLQueries :=
       <[NewTimeInterval 0 60 := [NewCQLQuery "avg" "cpu" "C" 0 60]]>
         (<[NewTimeInterval 60 120 := []]> ∅) |}.

Definition emptyPlan : QueryPlan :=
  {| AggregatorLabel := "avg";
     BucketedCQLQueries :=
       <[NewTimeInterval 0 60 := []]> (<[NewTimeInterval 60 120 := []]> ∅) |}.

(** The entries of the buckets of [query] over [index], last bucket first. *)
Definition entriesBackwards : list (TimeInterval * list Series) :=
  [(NewTimeInterval 60 120, [seriesA]); (NewTimeInterval 0 60, [seriesA])].

(** The series of section 8 (argument binding): row ["s1"] of table ["cpu"],
    and a query over [1500, 1800). *)
Definition s1 : Series :=
  {| Table := "cpu"; Id := "s1"; Measurement := "cpu"; Field := "usage_user";
     Tags := ∅; Window := NewTimeInterval 0 5000 |}.

Definition narrowQuery : HLQuery :=
  {| HumanLabel := "narrow"; HumanDescription := "a range inside one bucket"; ID := 2;
     MeasurementName := "cpu"; FieldName := "usage_user";
     AggregationType := "avg"; TimeStart := 1500; TimeEnd := 1800;
     GroupByDuration := 1000; TagSets := [] |}.

(** The filter and the series of section 8 (tag filter semantics). *)
Definition tagSets : list (list string) := [["a=1"; "b=2"]; ["c=3"]].

Definition seriesCD : Series :=
  {| Table := "cpu"; Id := "cd"; Measurement := "cpu"; Field := "usage_user";
     Tags := {["c=3"; "d=9"]}; Window := NewTimeInterval 0 200 |}.

Definition seriesAC : Series :=
  {| Table := "cpu"; Id := "ac"; Measurement := "cpu"; Field := "usage_user";
     Tags := {["a=1"; "c=3"]}; Window := NewTimeInterval 0 200 |}.

End Examples.

(** ** The body of [ToQueryPlan] past line 47 *)

(** Lines 48-96 for the list [tis] that [bucketTimeIntervals] returned on
    line 47: the map handed to [NewQueryPlan] on line 98. *)
Definition cqlBucketsFor (q : HLQuery) (tis : list TimeInterval)
    (seriesChoices : list Series) : CQLBuckets :=
  cqlBucketsOf q (map_to_list (bucketSeries q tis seriesChoices)).

(** The timestamps a query reads: its statement keeps the rows with
    [timestamp_ns >= ?] and [timestamp_ns < ?], and these two placeholders
    take the second and the third argument. *)
Definition readsTimestamp (cq : CQLQuery) (t : Z) : bool :=
  match Args cq with
  | [_; ArgInt64 timeStartNanos; ArgInt64 timeEndNanos] =>
      (timeStartNanos <=? t) && (t <? timeEndNanos)
  | _ => false
  end.

(** The number of placeholders [?] of a text. *)
Definition placeholders (s : string) : nat :=
  length (placeholderContexts EmptyString s).

(** The table and the row that a series is stored under. *)
Definition rowOf (s : Series) : string * string := (Table s, Id s).

Module MoreExamples.

(** The query of [Examples.query] with another label, id and aggregation. *)
Definition sumQuery : HLQuery :=
  {| HumanLabel := "other label"; HumanDescription := "other description"; ID := 7;
     MeasurementName := "cpu"; FieldName := "usage_user";
     AggregationType := "sum"; TimeStart := 0; TimeEnd := 120;
     GroupByDuration := 30; TagSets := [["host=X"]] |}.

(** A series that carries the tag a=1 and no other. *)
Definition seriesA1 : Series :=
  {| Table := "cpu"; Id := "a1"; Measurement := "cpu"; Field := "usage_user";
     Tags := {["a=1"]}; Window := NewTimeInterval 0 200 |}.

End MoreExamples.

(** * Properties *)

Example NewCQLQuery_avg_cpu :
  NewCQLQuery "avg" "cpu" "s1" 1500 1800 =
  {| PreparableQueryString :=
       "SELECT avg(value) FROM cpu WHERE series_id = ? AND timestamp_ns >= ? AND timestamp_ns < ?";
     Args := [ArgString "s1"; ArgInt64 1500; ArgInt64 1800] |}.
Proof. reflexivity. Qed.

(** ** The three loops of [ToQueryPlan] *)

Section Loops.

Variable q : HLQuery.

Lemma occurrences_pos ti tis : ti ∈ tis <-> (0 < occurrences ti tis)%nat.
Proof.
  unfold occurrences. induction tis as [|ti' tis IH].
  - rewrite elem_of_nil. simpl. lia.
  - rewrite elem_of_cons, filter_cons. destruct (decide (ti' = ti)) as [->|Hne].
    + simpl. split; [lia | auto].
    + rewrite <- IH. split; [intros [?|?]; congruence | auto].
Qed.

Lemma occurrences_NoDup ti tis : NoDup tis -> ti ∈ tis -> occurrences ti tis = 1%nat.
Proof.
  unfold occurrences. induction 1 as [|ti' tis Hnotin Hnd IH].
  - intros H. by apply elem_of_nil in H.
  - rewrite elem_of_cons, filter_cons. destruct (decide (ti' = ti)) as [->|Hne].
    + intros _. simpl. f_equal.
      destruct (decide (ti ∈ tis)) as [Hin|Hout]; [done|].
      assert (Hz : ~ (0 < occurrences ti tis)%nat) by (by rewrite <- occurrences_pos).
      unfold occurrences in Hz. lia.
    + intros [?|?]; [congruence | auto].
Qed.

Lemma emptyBuckets_fold (tis : list TimeInterval) (m : SeriesBuckets) ti :
  foldl (fun bucketedSeries ti => <[ti := []]> bucketedSeries) m tis !! ti
  = if bool_decide (ti ∈ tis) then Some [] else m !! ti.
Proof.
  revert m. induction tis as [|ti' tis IH]; intros m.
  - by rewrite bool_decide_eq_false_2 by apply not_elem_of_nil.
  - cbn [foldl]. rewrite IH. case_bool_decide as Hin.
    + by rewrite bool_decide_eq_true_2 by (by right).
    + destruct (decide (ti' = ti)) as [->|Hne].
      * rewrite bool_decide_eq_true_2 by left. apply lookup_insert_eq.
      * rewrite bool_decide_eq_false_2
          by (rewrite elem_of_cons; intros [?|?]; congruence).
        by apply lookup_insert_ne.
Qed.

Lemma emptyBuckets_lookup (tis : list TimeInterval) ti :
  emptyBuckets tis !! ti = if bool_decide (ti ∈ tis) then Some [] else None.
Proof. unfold emptyBuckets. by rewrite emptyBuckets_fold, lookup_empty. Qed.

(** The inner loop adds [s] to a bucket once per occurrence of its
    interval, when [s] matches the interval, and leaves the others. *)
Lemma placeSeries_lookup (tis : list TimeInterval) (m : SeriesBuckets) s ti :
  placeSeries tis m s !! ti
  = if MatchesTimeInterval s ti && bool_decide (ti ∈ tis)
    then Some (default [] (m !! ti) ++ replicate (occurrences ti tis) s)
    else m !! ti.
Proof.
  unfold placeSeries, occurrences. revert m.
  induction tis as [|ti' tis IH]; intros m.
  - rewrite bool_decide_eq_false_2 by apply not_elem_of_nil.
    by rewrite andb_false_r.
  - cbn [foldl]. rewrite IH, filter_cons. clear IH.
    destruct (decide (ti' = ti)) as [->|Hne].
    + rewrite (bool_decide_eq_true_2 (ti ∈ ti :: tis)) by left.
      rewrite andb_true_r.
      destruct (MatchesTimeInterval s ti) eqn:Hm; simpl.
      * rewrite lookup_insert_eq. simpl.
        case_bool_decide as Hin.
        -- by rewrite <- app_assoc.
        -- assert (Hz : ~ (0 < occurrences ti tis)%nat) by (by rewrite <- occurrences_pos).
           unfold occurrences in Hz.
           replace (length (filter (fun ti' => ti' = ti) tis)) with 0%nat by lia.
           done.
      * done.
    + assert (Heq : bool_decide (ti ∈ ti' :: tis) = bool_decide (ti ∈ tis)).
      { apply bool_decide_ext. rewrite elem_of_cons.
        split; [intros [?|?]; [congruence | done] | by right]. }
      rewrite Heq.
      destruct (MatchesTimeInterval s ti'); simpl; [|done].
      by rewrite lookup_insert_ne.
Qed.

Lemma seriesStep_lookup tis (m : SeriesBuckets) s ti :
  seriesStep q tis m s !! ti
  = if matchesBucket q ti s && bool_decide (ti ∈ tis)
    then Some (default [] (m !! ti) ++ replicate (occurrences ti tis) s)
    else m !! ti.
Proof.
  unfold seriesStep, matchesBucket, matchesQuery.
  destruct (MatchesMeasurementName s (MeasurementName q)); [|done].
  destruct (MatchesFieldName s (FieldName q)); [|done].
  destruct (MatchesTagSets s (TagSets q)); [|done].
  cbn [negb andb]. apply placeSeries_lookup.
Qed.

Lemma seriesLoop_lookup tis seriesChoices (m : SeriesBuckets) ti l :
  ti ∈ tis -> m !! ti = Some l ->
  foldl (seriesStep q tis) m seriesChoices !! ti = Some (l ++ placed q tis ti seriesChoices).
Proof.
  intros Hin. revert m l.
  induction seriesChoices as [|s ss IH]; intros m l Hm.
  - cbn. by rewrite app_nil_r.
  - cbn [foldl]. unfold placed. cbn [mbind list_bind]. fold (placed q tis ti ss).
    pose proof (seriesStep_lookup tis m s ti) as Hstep.
    rewrite Hm, bool_decide_eq_true_2, andb_true_r in Hstep by done.
    cbn [default] in Hstep.
    destruct (matchesBucket q ti s).
    + rewrite (IH _ _ Hstep). by rewrite <- app_assoc.
    + by rewrite (IH _ _ Hstep).
Qed.

Lemma seriesLoop_lookup_out tis seriesChoices (m : SeriesBuckets) ti :
  ti ∉ tis ->
  foldl (seriesStep q tis) m seriesChoices !! ti = m !! ti.
Proof.
  intros Hout. revert m.
  induction seriesChoices as [|s ss IH]; intros m; [done|].
  cbn [foldl]. rewrite IH, seriesStep_lookup.
  by rewrite bool_decide_eq_false_2, andb_false_r.
Qed.

(** The buckets after the first two loops. *)
Lemma bucketSeries_lookup tis seriesChoices ti :
  bucketSeries q tis seriesChoices !! ti
  = if bool_decide (ti ∈ tis) then Some (placed q tis ti seriesChoices) else None.
Proof.
  unfold bucketSeries.
  case_bool_decide as Hin.
  - apply (seriesLoop_lookup tis seriesChoices _ ti []); [done|].
    by rewrite emptyBuckets_lookup, bool_decide_eq_true_2.
  - rewrite seriesLoop_lookup_out by done.
    by rewrite emptyBuckets_lookup, bool_decide_eq_false_2.
Qed.

Lemma placed_NoDup tis seriesChoices ti :
  NoDup tis -> ti ∈ tis ->
  placed q tis ti seriesChoices = filter (fun s => matchesBucket q ti s) seriesChoices.
Proof.
  intros Hnd Hin. unfold placed. rewrite (occurrences_NoDup _ _ Hnd Hin).
  induction seriesChoices as [|s ss IH]; [done|].
  cbn [mbind list_bind]. rewrite filter_cons, IH.
  destruct (matchesBucket q ti s).
  - by rewrite decide_True.
  - rewrite decide_False; [done | by intros []].
Qed.

Lemma elem_of_placed tis seriesChoices ti s :
  ti ∈ tis ->
  s ∈ placed q tis ti seriesChoices <-> s ∈ seriesChoices /\ matchesBucket q ti s = true.
Proof.
  intros Hin. unfold placed. rewrite list_elem_of_bind. split.
  - intros (s' & Hs & Hs'). destruct (matchesBucket q ti s') eqn:Hm.
    + apply elem_of_replicate in Hs as [-> _]. done.
    + by apply elem_of_nil in Hs.
  - intros [Hs Hm]. exists s. split; [|done]. rewrite Hm.
    apply elem_of_replicate. split; [done|].
    apply occurrences_pos in Hin. lia.
Qed.

End Loops.

(** ** The conversion loop does not depend on the order of the map *)

Section Conversion.

Variable q : HLQuery.

Lemma cqlBuckets_fold (entries : list (TimeInterval * list Series))
    (acc : CQLBuckets) ti :
  NoDup entries.*1 ->
  foldl (fun cqlBuckets e => <[e.1 := cqlQueries q e.1 e.2]> cqlBuckets) acc entries !! ti
  = match (list_to_map entries : SeriesBuckets) !! ti with
    | Some seriesSlice => Some (cqlQueries q ti seriesSlice)
    | None => acc !! ti
    end.
Proof.
  revert acc. induction entries as [|[k v] entries IH]; intros acc Hnd.
  - cbn [foldl list_to_map foldr]. by rewrite lookup_empty.
  - rewrite fmap_cons in Hnd. apply NoDup_cons in Hnd as [Hk Hnd].
    cbn [foldl list_to_map foldr fst snd uncurry]. rewrite (IH _ Hnd).
    destruct (decide (k = ti)) as [->|Hne].
    + cbn [fst] in Hk.
      by rewrite (not_elem_of_list_to_map_1 _ _ Hk), !lookup_insert_eq.
    + rewrite (lookup_insert_ne (list_to_map entries)) by done.
      destruct (list_to_map entries !! ti); [done|].
      by apply lookup_insert_ne.
Qed.

(** Whatever the order of iteration, the bucket of [ti] holds the queries
    of the series placed in it. *)
Lemma cqlBucketsOf_lookup (m : SeriesBuckets) entries ti :
  entries ≡ₚ map_to_list m ->
  cqlBucketsOf q entries !! ti = cqlQueries q ti <$> m !! ti.
Proof.
  intros Hperm. unfold cqlBucketsOf.
  assert (Hnd : NoDup entries.*1).
  { rewrite Hperm. apply NoDup_fst_map_to_list. }
  rewrite (cqlBuckets_fold _ _ _ Hnd), lookup_empty.
  rewrite (list_to_map_proper _ _ Hnd Hperm), list_to_map_to_list.
  by destruct (m !! ti).
Qed.

Lemma cqlBucketsOf_order (m : SeriesBuckets) entries :
  entries ≡ₚ map_to_list m ->
  cqlBucketsOf q entries = cqlBucketsOf q (map_to_list m).
Proof.
  intros Hperm. apply map_eq. intros ti.
  by rewrite (cqlBucketsOf_lookup m entries), (cqlBucketsOf_lookup m (map_to_list m)).
Qed.

End Conversion.

(** ** Assembly of the plan *)

Lemma NewQueryPlan_inl aggrLabel (buckets : CQLBuckets) qp :
  NewQueryPlan aggrLabel buckets = inl qp ->
  AggregatorLabel qp = aggrLabel /\ BucketedCQLQueries qp = buckets.
Proof.
  unfold NewQueryPlan. destruct (forallb _ _); [|done].
  intros [= <-]. done.
Qed.

Lemma NewQueryPlan_wellFormed aggrLabel (buckets : CQLBuckets) :
  (forall ti, ti ∈ dom buckets -> wellFormed ti = true) ->
  NewQueryPlan aggrLabel buckets
  = inl {| AggregatorLabel := aggrLabel; BucketedCQLQueries := buckets |}.
Proof.
  intros Hwf. unfold NewQueryPlan.
  assert (Hall : forallb wellFormed (map fst (map_to_list buckets)) = true).
  { apply forallb_forall. intros ti Hin. apply Hwf.
    apply list_elem_of_In, list_elem_of_fmap in Hin as ([k v] & -> & Hkv).
    apply elem_of_map_to_list in Hkv. apply elem_of_dom. by exists v. }
  by rewrite Hall.
Qed.

(** ** The plan of a run *)

Section Plan.

Variables (q : HLQuery) (csi : ClientSideIndex).

(** Every run computes the result of [ToQueryPlan]. *)
Lemma run_ToQueryPlan res : ToQueryPlan_run q csi res -> res = ToQueryPlan q csi.
Proof.
  intros [entries Hperm]. unfold ToQueryPlan, planOfEntries.
  by rewrite (cqlBucketsOf_order q _ _ Hperm).
Qed.

Lemma ToQueryPlan_is_run : ToQueryPlan_run q csi (ToQueryPlan q csi).
Proof. by constructor. Qed.

(** The bucket of [ti] in a plan that was returned. *)
Lemma plan_lookup qp ti :
  ToQueryPlan q csi = inl qp ->
  BucketedCQLQueries qp !! ti
  = if bool_decide (ti ∈ bucketsOf q)
    then Some (cqlQueries q ti (placed q (bucketsOf q) ti (CopyOfSeriesCollection csi)))
    else None.
Proof.
  unfold ToQueryPlan, planOfEntries. intros Hplan.
  apply NewQueryPlan_inl in Hplan as [_ ->].
  rewrite (cqlBucketsOf_lookup q (bucketedSeriesOf q csi)) by done.
  unfold bucketedSeriesOf. rewrite bucketSeries_lookup.
  by case_bool_decide.
Qed.

Lemma plan_dom qp :
  ToQueryPlan q csi = inl qp ->
  dom (BucketedCQLQueries qp) = list_to_set (bucketsOf q).
Proof.
  intros Hplan. apply set_eq. intros ti.
  rewrite elem_of_dom, (plan_lookup _ _ Hplan), elem_of_list_to_set.
  case_bool_decide; split; done.
Qed.

End Plan.

(** ** The time bucketer *)

Section Bucketer.

Variables (start end_ : Time) (window : Duration).

Lemma clampedStart_max timeStart ti :
  clampedStart timeStart ti = Z.max (Start ti) timeStart.
Proof. unfold clampedStart, Before. cbn zeta. case (Z.ltb_spec (Start ti) timeStart); lia. Qed.

Lemma clampedEnd_min timeEnd ti :
  clampedEnd timeEnd ti = Z.min (End ti) timeEnd.
Proof. unfold clampedEnd, After. cbn zeta. case (Z.ltb_spec timeEnd (End ti)); lia. Qed.

(** With enough fuel the loop yields interval [k] exactly when its start
    is before [stop]. *)
Lemma bucketLoop_lookup fuel cur stop (k : nat) :
  0 < window -> stop - cur <= Z.of_nat fuel ->
  bucketLoop fuel cur stop window !! k
  = if cur + Z.of_nat k * window <? stop
    then Some (NewTimeInterval (cur + Z.of_nat k * window)
                               (cur + (Z.of_nat k + 1) * window))
    else None.
Proof.
  intros Hw. revert cur k. induction fuel as [|fuel IH]; intros cur k Hfuel.
  - cbn [bucketLoop]. rewrite lookup_nil.
    case (Z.ltb_spec (cur + Z.of_nat k * window) stop); [nia | done].
  - cbn [bucketLoop]. unfold Before. case (Z.ltb_spec cur stop) as [Hlt|Hge].
    + destruct k as [|k].
      * cbn [lookup list_lookup]. replace (cur + Z.of_nat 0 * window) with cur by lia.
        rewrite (proj2 (Z.ltb_lt _ _) Hlt). do 2 f_equal. lia.
      * rewrite lookup_cons_ne_0 by done. cbn [Nat.pred]. rewrite IH by lia.
        replace (cur + window + Z.of_nat k * window)
          with (cur + Z.of_nat (S k) * window) by lia.
        replace (cur + window + (Z.of_nat k + 1) * window)
          with (cur + (Z.of_nat (S k) + 1) * window) by lia.
        done.
    + rewrite lookup_nil.
      case (Z.ltb_spec (cur + Z.of_nat k * window) stop); [nia | done].
Qed.

Lemma bucketTimeIntervals_loop :
  0 < window -> start < end_ ->
  bucketTimeIntervals start end_ window
  = bucketLoop (Z.to_nat (end_ - start)) start end_ window.
Proof.
  intros Hw Hlt. unfold bucketTimeIntervals.
  rewrite (proj2 (Z.eqb_neq _ _)) by lia.
  by rewrite (proj2 (Z.leb_gt _ _)) by lia.
Qed.

Lemma bucketTimeIntervals_lookup (k : nat) :
  0 < window -> start < end_ ->
  bucketTimeIntervals start end_ window !! k
  = if start + Z.of_nat k * window <? end_
    then Some (NewTimeInterval (start + Z.of_nat k * window)
                               (start + (Z.of_nat k + 1) * window))
    else None.
Proof.
  intros Hw Hlt. rewrite bucketTimeIntervals_loop by done.
  apply bucketLoop_lookup; [done | lia].
Qed.

Lemma bucketTimeIntervals_single :
  window = 0 \/ end_ <= start ->
  bucketTimeIntervals start end_ window = [NewTimeInterval start end_].
Proof.
  intros H. unfold bucketTimeIntervals.
  assert (Hc : (window =? 0) || (end_ <=? start) = true).
  { apply orb_true_iff. rewrite Z.eqb_eq, Z.leb_le. done. }
  by rewrite Hc.
Qed.

(** Within the contract every bucket is a well-formed interval. *)
Lemma bucketTimeIntervals_wellFormed ti :
  start <= end_ -> 0 <= window ->
  ti ∈ bucketTimeIntervals start end_ window -> wellFormed ti = true.
Proof.
  intros Hle Hw Hin. unfold wellFormed. apply Z.leb_le.
  destruct (decide (window = 0 \/ end_ <= start)) as [Hs|Hl].
  - rewrite bucketTimeIntervals_single in Hin by done.
    apply list_elem_of_singleton in Hin as ->. done.
  - apply list_elem_of_lookup in Hin as [k Hk].
    rewrite bucketTimeIntervals_lookup in Hk by lia.
    destruct (_ <? _); [|done]. injection Hk as <-. cbn. lia.
Qed.

(** The starts of the buckets are pairwise distinct. *)
Lemma bucketTimeIntervals_NoDup :
  0 <= window -> NoDup (bucketTimeIntervals start end_ window).
Proof.
  intros Hw.
  destruct (decide (window = 0 \/ end_ <= start)) as [Hs|Hl].
  - rewrite bucketTimeIntervals_single by done. apply NoDup_singleton.
  - apply NoDup_alt. intros i j ti Hi Hj.
    rewrite bucketTimeIntervals_lookup in Hi, Hj by lia.
    destruct (start + Z.of_nat i * window <? end_); [|done].
    destruct (start + Z.of_nat j * window <? end_); [|done].
    injection Hi as <-. injection Hj as Hj _. nia.
Qed.

End Bucketer.

(** ** Statements and their arguments *)

Lemma append_assoc (s1 s2 s3 : string) : (s1 +:+ s2) +:+ s3 = s1 +:+ s2 +:+ s3.
Proof.
  induction s1 as [|c s1 IH]; [done|].
  change (String c ((s1 +:+ s2) +:+ s3) = String c (s1 +:+ s2 +:+ s3)).
  by rewrite IH.
Qed.

Lemma UnixNano_int64 t : int64_range t -> UnixNano t = t.
Proof.
  unfold int64_range, UnixNano, wrap64. intros Ht.
  rewrite Z.mod_small by lia. lia.
Qed.

Lemma UnixNano_range t : int64_range (UnixNano t).
Proof.
  unfold int64_range, UnixNano, wrap64.
  pose proof (Z.mod_pos_bound (t + 2 ^ 63) (2 ^ 64) ltac:(lia)). lia.
Qed.

Lemma cqlQueryOf_Args q ti ser :
  Args (cqlQueryOf q ti ser)
  = [ArgString (Id ser);
     ArgInt64 (UnixNano (Z.max (Start ti) (TimeStart q)));
     ArgInt64 (UnixNano (Z.min (End ti) (TimeEnd q)))].
Proof.
  unfold cqlQueryOf, NewCQLQuery. cbn [Args].
  by rewrite clampedStart_max, clampedEnd_min.
Qed.

(** Within the contract of the bucketer, planning returns a plan. *)
Lemma ToQueryPlan_succeeds q csi :
  TimeStart q <= TimeEnd q -> 0 <= GroupByDuration q ->
  exists qp, ToQueryPlan q csi = inl qp.
Proof.
  intros Hle Hw. eexists. unfold ToQueryPlan, planOfEntries.
  apply NewQueryPlan_wellFormed. intros ti Hti.
  apply elem_of_dom in Hti as [queries Hq].
  rewrite (cqlBucketsOf_lookup q (bucketedSeriesOf q csi)) in Hq by done.
  unfold bucketedSeriesOf in Hq. rewrite bucketSeries_lookup in Hq.
  case_bool_decide as Hin; [|done].
  by apply (bucketTimeIntervals_wellFormed (TimeStart q) (TimeEnd q) (GroupByDuration q)).
Qed.

(** Within the contract of the bucketer the buckets are pairwise distinct,
    and the series of a bucket are those of the snapshot that pass the four
    tests, each once and in the order of the snapshot. *)
Lemma bucket_is_filter q csi ti :
  0 <= GroupByDuration q ->
  ti ∈ bucketsOf q ->
  bucketedSeriesOf q csi !! ti
  = Some (filter (fun s => matchesBucket q ti s) (CopyOfSeriesCollection csi)).
Proof.
  intros Hw Hti. unfold bucketedSeriesOf.
  rewrite bucketSeries_lookup, bool_decide_eq_true_2 by done.
  rewrite placed_NoDup; [done | | done].
  by apply bucketTimeIntervals_NoDup.
Qed.

(** The end-to-end scenario of section 8, and two smaller catalogs. *)
Example ToQueryPlan_scenario :
  ToQueryPlan Examples.query Examples.index = inl Examples.plan.
Proof. vm_compute. reflexivity. Qed.

Example ToQueryPlan_short :
  ToQueryPlan Examples.query Examples.shortIndex = inl Examples.shortPlan.
Proof. vm_compute. reflexivity. Qed.

Example ToQueryPlan_other :
  ToQueryPlan Examples.query Examples.otherIndex = inl Examples.emptyPlan.
Proof. vm_compute. reflexivity. Qed.

Example bucketTimeIntervals_0_100_30 :
  bucketTimeIntervals 0 100 30
  = [NewTimeInterval 0 30; NewTimeInterval 30 60;
     NewTimeInterval 60 90; NewTimeInterval 90 120]
  /\ clampedEnd 100 (NewTimeInterval 90 120) = 100.
Proof. split; reflexivity. Qed.

(** C8: [NewCQLQuery] is defined for all inputs; the text of its statement
    is a function of the aggregation label and the table name alone, so it
    is the same for any two row names and time bounds; the row name and the
    time bounds are the three bound arguments, and the statement holds a
    placeholder for each. *)
Theorem NewCQLQuery_text_and_arguments
    (aggrLabel tableName rowName rowName' : string)
    (timeStartNanos timeEndNanos timeStartNanos' timeEndNanos' : Z) :
  (exists cq, NewCQLQuery aggrLabel tableName rowName timeStartNanos timeEndNanos = cq
              /\ PreparableQueryString cq = statementText aggrLabel tableName
              /\ Args cq = [ArgString rowName; ArgInt64 timeStartNanos; ArgInt64 timeEndNanos])
  /\ PreparableQueryString (NewCQLQuery aggrLabel tableName rowName timeStartNanos timeEndNanos)
     = PreparableQueryString (NewCQLQuery aggrLabel tableName rowName' timeStartNanos' timeEndNanos')
  /\ statementText aggrLabel tableName
     = "SELECT " +:+ aggrLabel +:+ "(value) FROM " +:+ tableName
       +:+ " WHERE series_id = ? AND timestamp_ns >= ? AND timestamp_ns < ?".
Proof.
  split; [|split]; [|reflexivity..].
  eexists. split; [reflexivity|]. split; reflexivity.
Qed.

(** ** The queries of a plan *)

(** C1: in a plan that was returned, the query at position [i] of a bucket
    is the one built for the series at position [i] of that bucket, and it
    binds the row identifier of the series, the nanoseconds of the later of
    the bucket start and the query start, and the nanoseconds of the earlier
    of the bucket end and the query end (a time in the [int64] range being
    its own count of nanoseconds).  For the bucket [1000, 2000) and a query
    over [1500, 1800) the arguments of series ["s1"] are
    ("s1", 1500, 1800). *)
Theorem emitted_query_binds_clamped_bounds :
  (forall q csi qp ti seriesSlice (i : nat) ser,
     ToQueryPlan q csi = inl qp ->
     bucketedSeriesOf q csi !! ti = Some seriesSlice ->
     seriesSlice !! i = Some ser ->
     exists queries cq,
       BucketedCQLQueries qp !! ti = Some queries
       /\ length queries = length seriesSlice
       /\ queries !! i = Some cq
       /\ cq = NewCQLQuery (AggregationType q) (Table ser) (Id ser)
                 (UnixNano (Z.max (Start ti) (TimeStart q)))
                 (UnixNano (Z.min (End ti) (TimeEnd q)))
       /\ Args cq = [ArgString (Id ser);
                     ArgInt64 (UnixNano (Z.max (Start ti) (TimeStart q)));
                     ArgInt64 (UnixNano (Z.min (End ti) (TimeEnd q)))])
  /\ (forall t, int64_range t -> UnixNano t = t)
  /\ Args (cqlQueryOf Examples.narrowQuery (NewTimeInterval 1000 2000) Examples.s1)
     = [ArgString "s1"; ArgInt64 1500; ArgInt64 1800].
Proof.
  split; [|split; [apply UnixNano_int64 | reflexivity]].
  intros q csi qp ti seriesSlice i ser Hplan Hslice Hser.
  unfold ToQueryPlan, planOfEntries in Hplan.
  apply NewQueryPlan_inl in Hplan as [_ Hb].
  exists (cqlQueries q ti seriesSlice), (cqlQueryOf q ti ser).
  split; [|split; [|split; [|split]]].
  - rewrite Hb, (cqlBucketsOf_lookup q (bucketedSeriesOf q csi)) by done.
    by rewrite Hslice.
  - unfold cqlQueries. by rewrite length_map.
  - unfold cqlQueries. by rewrite list_lookup_fmap, Hser.
  - unfold cqlQueryOf. by rewrite clampedStart_max, clampedEnd_min.
  - apply cqlQueryOf_Args.
Qed.

Lemma emitted_query_binds_clamped_bounds_witness :
  ToQueryPlan Examples.query Examples.index = inl Examples.plan
  /\ bucketedSeriesOf Examples.query Examples.index !! NewTimeInterval 60 120
     = Some [Examples.seriesA]
  /\ [Examples.seriesA] !! 0%nat = Some Examples.seriesA
  /\ exists queries cq,
       BucketedCQLQueries Examples.plan !! NewTimeInterval 60 120 = Some queries
       /\ length queries = 1%nat
       /\ queries !! 0%nat = Some cq
       /\ cq = NewCQLQuery "avg" "cpu" "A" (UnixNano (Z.max 60 0)) (UnixNano (Z.min 120 120))
       /\ Args cq = [ArgString "A"; ArgInt64 (UnixNano (Z.max 60 0));
                     ArgInt64 (UnixNano (Z.min 120 120))].
Proof.
  split; [vm_compute; reflexivity|].
  split; [vm_compute; reflexivity|].
  split; [reflexivity|].
  apply (proj1 emitted_query_binds_clamped_bounds
           Examples.query Examples.index Examples.plan (NewTimeInterval 60 120)
           [Examples.seriesA] 0%nat Examples.seriesA);
    vm_compute; reflexivity.
Defined.

(** C10: every query of a plan that was returned is the query of a series
    of the snapshot; its statement ends with the conditions
    [timestamp_ns >= ?] and [timestamp_ns < ?], in this order after
    [series_id = ?], and its arguments are, in this order, the row
    identifier, the start and the end: the start is compared with [>=] and
    the end with [<].  The same holds of every query [NewCQLQuery] builds. *)
Theorem emitted_query_is_half_open :
  (forall q csi qp ti queries cq,
     ToQueryPlan q csi = inl qp ->
     BucketedCQLQueries qp !! ti = Some queries ->
     cq ∈ queries ->
     exists ser,
       ser ∈ CopyOfSeriesCollection csi
       /\ PreparableQueryString cq
          = ("SELECT " +:+ AggregationType q +:+ "(value) FROM " +:+ Table ser) +:+ whereClause
       /\ Args cq = [ArgString (Id ser);
                     ArgInt64 (UnixNano (clampedStart (TimeStart q) ti));
                     ArgInt64 (UnixNano (clampedEnd (TimeEnd q) ti))])
  /\ (forall aggrLabel tableName rowName timeStartNanos timeEndNanos,
        PreparableQueryString
          (NewCQLQuery aggrLabel tableName rowName timeStartNanos timeEndNanos)
        = ("SELECT " +:+ aggrLabel +:+ "(value) FROM " +:+ tableName) +:+ whereClause
        /\ Args (NewCQLQuery aggrLabel tableName rowName timeStartNanos timeEndNanos)
           = [ArgString rowName; ArgInt64 timeStartNanos; ArgInt64 timeEndNanos])
  /\ placeholderContexts EmptyString whereClause
     = [" WHERE series_id = "; " AND timestamp_ns >= "; " AND timestamp_ns < "].
Proof.
  assert (Htext : forall a t, statementText a t
                  = ("SELECT " +:+ a +:+ "(value) FROM " +:+ t) +:+ whereClause).
  { intros a t. unfold statementText. by rewrite !append_assoc. }
  split; [|split; [|reflexivity]].
  - intros q csi qp ti queries cq Hplan Hq Hcq.
    rewrite (plan_lookup _ _ _ _ Hplan) in Hq.
    case_bool_decide as Hin; [|done]. injection Hq as <-.
    unfold cqlQueries in Hcq. apply list_elem_of_fmap in Hcq as (ser & -> & Hser).
    apply elem_of_placed in Hser as [Hser _]; [|done].
    exists ser. split; [done|]. split; [|reflexivity].
    unfold cqlQueryOf, NewCQLQuery. cbn [PreparableQueryString]. apply Htext.
  - intros a t r s e. split; [|reflexivity].
    unfold NewCQLQuery. cbn [PreparableQueryString]. apply Htext.
Qed.

Lemma emitted_query_is_half_open_witness :
  ToQueryPlan Examples.query Examples.index = inl Examples.plan
  /\ BucketedCQLQueries Examples.plan !! NewTimeInterval 0 60
     = Some [NewCQLQuery "avg" "cpu" "A" 0 60]
  /\ NewCQLQuery "avg" "cpu" "A" 0 60 ∈ [NewCQLQuery "avg" "cpu" "A" 0 60]
  /\ exists ser,
       ser ∈ CopyOfSeriesCollection Examples.index
       /\ PreparableQueryString (NewCQLQuery "avg" "cpu" "A" 0 60)
          = ("SELECT " +:+ "avg" +:+ "(value) FROM " +:+ Table ser) +:+ whereClause
       /\ Args (NewCQLQuery "avg" "cpu" "A" 0 60)
          = [ArgString (Id ser);
             ArgInt64 (UnixNano (clampedStart 0 (NewTimeInterval 0 60)));
             ArgInt64 (UnixNano (clampedEnd 120 (NewTimeInterval 0 60)))].
Proof.
  split; [vm_compute; reflexivity|].
  split; [vm_compute; reflexivity|].
  split; [apply list_elem_of_singleton; reflexivity|].
  apply (proj1 emitted_query_is_half_open
           Examples.query Examples.index Examples.plan (NewTimeInterval 0 60)
           [NewCQLQuery "avg" "cpu" "A" 0 60] (NewCQLQuery "avg" "cpu" "A" 0 60)).
  - vm_compute; reflexivity.
  - vm_compute; reflexivity.
  - apply list_elem_of_singleton; reflexivity.
Defined.

(** ** Buckets without series, and the order of the snapshot *)

Section Buckets.

Variable q : HLQuery.

Lemma placed_nil tis ti seriesChoices :
  (forall s, s ∈ seriesChoices -> matchesBucket q ti s = false) ->
  placed q tis ti seriesChoices = [].
Proof.
  induction seriesChoices as [|s ss IH]; intros Hno; [done|].
  unfold placed. cbn [mbind list_bind]. fold (placed q tis ti ss).
  rewrite (Hno s) by left. rewrite IH; [done|].
  intros s' Hs'. apply Hno. by right.
Qed.

Lemma placed_Permutation tis ti seriesChoices seriesChoices' :
  seriesChoices ≡ₚ seriesChoices' ->
  placed q tis ti seriesChoices ≡ₚ placed q tis ti seriesChoices'.
Proof. intros Hperm. unfold placed. by rewrite Hperm. Qed.

(** The map handed to [NewQueryPlan]. *)
Lemma cqlBuckets_lookup csi ti :
  cqlBucketsOf q (map_to_list (bucketedSeriesOf q csi)) !! ti
  = if bool_decide (ti ∈ bucketsOf q)
    then Some (cqlQueries q ti (placed q (bucketsOf q) ti (CopyOfSeriesCollection csi)))
    else None.
Proof.
  rewrite (cqlBucketsOf_lookup q (bucketedSeriesOf q csi)) by done.
  unfold bucketedSeriesOf. rewrite bucketSeries_lookup. by case_bool_decide.
Qed.

Lemma cqlBuckets_dom csi :
  dom (cqlBucketsOf q (map_to_list (bucketedSeriesOf q csi)))
  = list_to_set (bucketsOf q).
Proof.
  apply set_eq. intros ti.
  rewrite elem_of_dom, cqlBuckets_lookup, elem_of_list_to_set.
  case_bool_decide; split; done.
Qed.

End Buckets.

Lemma wellFormed_keys_dom (buckets buckets' : CQLBuckets) :
  dom buckets = dom buckets' ->
  forallb wellFormed (map fst (map_to_list buckets))
  = forallb wellFormed (map fst (map_to_list buckets')).
Proof.
  intros Hdom.
  assert (Hchar : forall b : CQLBuckets,
             forallb wellFormed (map fst (map_to_list b)) = true
             <-> forall ti, ti ∈ dom b -> wellFormed ti = true).
  { intros b. rewrite forallb_forall. split.
    - intros H ti Hti. apply H. apply list_elem_of_In, list_elem_of_fmap.
      apply elem_of_dom in Hti as [v Hv]. exists (ti, v). split; [done|].
      by apply elem_of_map_to_list.
    - intros H ti Hti. apply H.
      apply list_elem_of_In, list_elem_of_fmap in Hti as ([k v] & -> & Hkv).
      apply elem_of_map_to_list in Hkv. apply elem_of_dom. by exists v. }
  apply eq_true_iff_eq. rewrite (Hchar buckets), (Hchar buckets'). by rewrite Hdom.
Qed.

Lemma ToQueryPlan_Permutation q csi csi' :
  CopyOfSeriesCollection csi ≡ₚ CopyOfSeriesCollection csi' ->
  samePlan (ToQueryPlan q csi) (ToQueryPlan q csi').
Proof.
  intros Hperm. unfold ToQueryPlan, planOfEntries, NewQueryPlan.
  rewrite (wellFormed_keys_dom _
             (cqlBucketsOf q (map_to_list (bucketedSeriesOf q csi'))))
    by (by rewrite !cqlBuckets_dom).
  destruct (forallb _ _); [|done].
  cbn [samePlan BucketedCQLQueries]. split; [by rewrite !cqlBuckets_dom|].
  intros ti. rewrite !cqlBuckets_lookup.
  case_bool_decide; [|done]. cbn [default]. unfold cqlQueries.
  apply fmap_Permutation. by apply placed_Permutation.
Qed.

Lemma matchesBucket_true q ti s :
  matchesBucket q ti s = true
  <-> MatchesMeasurementName s (MeasurementName q) = true
      /\ MatchesFieldName s (FieldName q) = true
      /\ MatchesTagSets s (TagSets q) = true
      /\ MatchesTimeInterval s ti = true.
Proof. unfold matchesBucket, matchesQuery. rewrite !andb_true_iff. tauto. Qed.

Lemma empty_bucket_is_kept q csi qp :
  ToQueryPlan q csi = inl qp ->
  forall ti,
    ti ∈ bucketsOf q ->
    (forall s, s ∈ CopyOfSeriesCollection csi -> matchesBucket q ti s = false) ->
    BucketedCQLQueries qp !! ti = Some [].
Proof.
  intros Hplan ti Hti Hno. rewrite (plan_lookup _ _ _ _ Hplan).
  rewrite bool_decide_eq_true_2 by done. by rewrite placed_nil.
Qed.

(** C3: the keys of a plan that was returned are exactly the intervals of
    the time bucketer for the query, and a bucket that no series of the
    snapshot matches is a key of the plan, with the empty list of queries. *)
Theorem plan_keys_are_the_buckets q csi qp :
  ToQueryPlan q csi = inl qp ->
  dom (BucketedCQLQueries qp)
  = list_to_set (bucketTimeIntervals (TimeStart q) (TimeEnd q) (GroupByDuration q))
  /\ forall ti,
       ti ∈ bucketTimeIntervals (TimeStart q) (TimeEnd q) (GroupByDuration q) ->
       (forall s, s ∈ CopyOfSeriesCollection csi -> matchesBucket q ti s = false) ->
       BucketedCQLQueries qp !! ti = Some [].
Proof.
  intros Hplan. split; [by apply (plan_dom q csi)|].
  intros ti Hti Hno. by apply (empty_bucket_is_kept q csi).
Qed.

Lemma plan_keys_are_the_buckets_witness :
  ToQueryPlan Examples.query Examples.shortIndex = inl Examples.shortPlan
  /\ dom (BucketedCQLQueries Examples.shortPlan)
     = list_to_set (bucketTimeIntervals 0 120 60)
  /\ forall ti,
       ti ∈ bucketTimeIntervals 0 120 60 ->
       (forall s, s ∈ [Examples.seriesC] -> matchesBucket Examples.query ti s = false) ->
       BucketedCQLQueries Examples.shortPlan !! ti = Some [].
Proof.
  split; [vm_compute; reflexivity|].
  apply (plan_keys_are_the_buckets Examples.query Examples.shortIndex Examples.shortPlan).
  vm_compute; reflexivity.
Defined.

(** C6: for a query within its invariants (start not after end, width not
    negative) that no series of the snapshot matches in any bucket, planning
    returns a plan and no error, in every run; the keys of the plan are the
    buckets of the query and each is mapped to the empty list. *)
Theorem no_match_is_not_an_error q csi :
  TimeStart q <= TimeEnd q ->
  0 <= GroupByDuration q ->
  (forall s ti, s ∈ CopyOfSeriesCollection csi -> ti ∈ bucketsOf q ->
                matchesBucket q ti s = false) ->
  exists qp,
    ToQueryPlan q csi = inl qp
    /\ (forall res, ToQueryPlan_run q csi res -> res = inl qp)
    /\ dom (BucketedCQLQueries qp) = list_to_set (bucketsOf q)
    /\ forall ti, ti ∈ bucketsOf q -> BucketedCQLQueries qp !! ti = Some [].
Proof.
  intros Hle Hw Hno. destruct (ToQueryPlan_succeeds q csi Hle Hw) as [qp Hplan].
  exists qp. split; [done|]. split; [|split].
  - intros res Hrun. apply (run_ToQueryPlan q csi) in Hrun. congruence.
  - by apply (plan_dom q csi).
  - intros ti Hti. apply (empty_bucket_is_kept q csi qp Hplan ti Hti).
    intros s Hs. by apply Hno.
Qed.

Lemma no_match_is_not_an_error_witness :
  TimeStart Examples.query <= TimeEnd Examples.query
  /\ 0 <= GroupByDuration Examples.query
  /\ exists qp,
       ToQueryPlan Examples.query Examples.otherIndex = inl qp
       /\ (forall res, ToQueryPlan_run Examples.query Examples.otherIndex res -> res = inl qp)
       /\ dom (BucketedCQLQueries qp) = list_to_set (bucketsOf Examples.query)
       /\ forall ti, ti ∈ bucketsOf Examples.query -> BucketedCQLQueries qp !! ti = Some [].
Proof.
  split; [vm_compute; discriminate|].
  split; [vm_compute; discriminate|].
  apply (no_match_is_not_an_error Examples.query Examples.otherIndex).
  - vm_compute; discriminate.
  - vm_compute; discriminate.
  - intros s ti Hs _. apply list_elem_of_singleton in Hs. rewrite Hs.
    vm_compute. reflexivity.
Defined.

(** C7: in a plan that was returned, the queries of a bucket are those of
    the series placed in it, and a series is placed in the bucket if and
    only if it is in the snapshot and passes the four tests: measurement
    name, field name, tag sets, and the time interval of that bucket.  A
    series of the snapshot that fails one of the first three tests is in no
    bucket; one that passes them is in every bucket whose interval it
    matches, whatever the outcome for the other buckets. *)
Theorem series_in_bucket_iff_all_tests q csi qp ti :
  ToQueryPlan q csi = inl qp ->
  ti ∈ bucketsOf q ->
  exists seriesSlice,
    bucketedSeriesOf q csi !! ti = Some seriesSlice
    /\ BucketedCQLQueries qp !! ti = Some (map (cqlQueryOf q ti) seriesSlice)
    /\ (forall s,
          s ∈ seriesSlice
          <-> s ∈ CopyOfSeriesCollection csi
              /\ MatchesMeasurementName s (MeasurementName q) = true
              /\ MatchesFieldName s (FieldName q) = true
              /\ MatchesTagSets s (TagSets q) = true
              /\ MatchesTimeInterval s ti = true)
    /\ (forall s,
          MatchesMeasurementName s (MeasurementName q) = false
          \/ MatchesFieldName s (FieldName q) = false
          \/ MatchesTagSets s (TagSets q) = false ->
          forall ti' seriesSlice',
            bucketedSeriesOf q csi !! ti' = Some seriesSlice' -> s ∉ seriesSlice')
    /\ (forall s ti',
          s ∈ CopyOfSeriesCollection csi ->
          MatchesMeasurementName s (MeasurementName q) = true ->
          MatchesFieldName s (FieldName q) = true ->
          MatchesTagSets s (TagSets q) = true ->
          ti' ∈ bucketsOf q ->
          exists seriesSlice',
            bucketedSeriesOf q csi !! ti' = Some seriesSlice'
            /\ (s ∈ seriesSlice' <-> MatchesTimeInterval s ti' = true)).
Proof.
  intros Hplan Hti.
  assert (Hlookup : forall ti', ti' ∈ bucketsOf q ->
            bucketedSeriesOf q csi !! ti'
            = Some (placed q (bucketsOf q) ti' (CopyOfSeriesCollection csi))).
  { intros ti' Hti'. unfold bucketedSeriesOf.
    by rewrite bucketSeries_lookup, bool_decide_eq_true_2. }
  exists (placed q (bucketsOf q) ti (CopyOfSeriesCollection csi)).
  split; [by apply Hlookup|]. split; [|split; [|split]].
  - by rewrite (plan_lookup _ _ _ _ Hplan), bool_decide_eq_true_2.
  - intros s. by rewrite elem_of_placed, matchesBucket_true.
  - intros s Hfail ti' seriesSlice' Hslice Hs.
    unfold bucketedSeriesOf in Hslice. rewrite bucketSeries_lookup in Hslice.
    case_bool_decide as Hti'; [|done]. injection Hslice as <-.
    apply elem_of_placed in Hs as [_ Hs]; [|done].
    apply matchesBucket_true in Hs as (Hm & Hf & Ht & _).
    destruct Hfail as [Hx|[Hx|Hx]]; congruence.
  - intros s ti' Hs Hm Hf Ht Hti'.
    exists (placed q (bucketsOf q) ti' (CopyOfSeriesCollection csi)).
    split; [by apply Hlookup|].
    rewrite elem_of_placed, matchesBucket_true by done. tauto.
Qed.

Lemma series_in_bucket_iff_all_tests_witness :
  ToQueryPlan Examples.query Examples.shortIndex = inl Examples.shortPlan
  /\ NewTimeInterval 60 120 ∈ bucketsOf Examples.query
  /\ exists seriesSlice,
       bucketedSeriesOf Examples.query Examples.shortIndex !! NewTimeInterval 60 120
       = Some seriesSlice
       /\ BucketedCQLQueries Examples.shortPlan !! NewTimeInterval 60 120
          = Some (map (cqlQueryOf Examples.query (NewTimeInterval 60 120)) seriesSlice).
Proof.
  assert (Hin : NewTimeInterval 60 120 ∈ bucketsOf Examples.query).
  { apply list_elem_of_In. vm_compute. right. left. reflexivity. }
  split; [vm_compute; reflexivity|]. split; [exact Hin|].
  destruct (series_in_bucket_iff_all_tests Examples.query Examples.shortIndex
              Examples.shortPlan (NewTimeInterval 60 120)) as (seriesSlice & H1 & H2 & _).
  - vm_compute; reflexivity.
  - exact Hin.
  - exists seriesSlice. split; [exact H1 | exact H2].
Defined.

(** A series is in no bucket, in one, or in several. *)
Example series_in_zero_one_many_buckets :
  bucketedSeriesOf Examples.query Examples.otherIndex
  = <[NewTimeInterval 0 60 := []]> (<[NewTimeInterval 60 120 := []]> ∅)
  /\ bucketedSeriesOf Examples.query Examples.shortIndex
     = <[NewTimeInterval 0 60 := [Examples.seriesC]]> (<[NewTimeInterval 60 120 := []]> ∅)
  /\ bucketedSeriesOf Examples.query Examples.index
     = <[NewTimeInterval 0 60 := [Examples.seriesA]]>
         (<[NewTimeInterval 60 120 := [Examples.seriesA]]> ∅).
Proof. repeat split; vm_compute; reflexivity. Qed.

(** C9: two runs of planning on the same query and the same snapshot return
    the same result, whatever the order in which each run visits the map of
    buckets; and when the snapshots of the two runs hold the same series in
    a different order, both runs fail or both return plans with the same
    keys and, for each bucket, the same queries up to their order. *)
Theorem planning_is_deterministic :
  (forall q csi res res',
     ToQueryPlan_run q csi res -> ToQueryPlan_run q csi res' ->
     res = res' /\ samePlan res res')
  /\ (forall q csi csi' res res',
        CopyOfSeriesCollection csi ≡ₚ CopyOfSeriesCollection csi' ->
        ToQueryPlan_run q csi res -> ToQueryPlan_run q csi' res' ->
        samePlan res res').
Proof.
  assert (Hperm : forall q csi csi' res res',
            CopyOfSeriesCollection csi ≡ₚ CopyOfSeriesCollection csi' ->
            ToQueryPlan_run q csi res -> ToQueryPlan_run q csi' res' ->
            samePlan res res').
  { intros q csi csi' res res' Hp Hrun Hrun'.
    apply run_ToQueryPlan in Hrun as ->. apply run_ToQueryPlan in Hrun' as ->.
    by apply ToQueryPlan_Permutation. }
  split; [|exact Hperm].
  intros q csi res res' Hrun Hrun'. split; [|by apply (Hperm q csi csi)].
  apply run_ToQueryPlan in Hrun, Hrun'. congruence.
Qed.

Lemma backwards_is_an_order :
  Examples.entriesBackwards
  ≡ₚ map_to_list (bucketedSeriesOf Examples.query Examples.index).
Proof. vm_compute. apply perm_swap. Qed.

Lemma planning_is_deterministic_witness :
  (planOfEntries Examples.query Examples.entriesBackwards
   = ToQueryPlan Examples.query Examples.index
   /\ samePlan (planOfEntries Examples.query Examples.entriesBackwards)
               (ToQueryPlan Examples.query Examples.index))
  /\ samePlan (planOfEntries Examples.query Examples.entriesBackwards)
              (ToQueryPlan Examples.query Examples.swappedIndex).
Proof.
  split.
  - apply (proj1 planning_is_deterministic Examples.query Examples.index).
    + apply run_in_order, backwards_is_an_order.
    + apply ToQueryPlan_is_run.
  - apply (proj2 planning_is_deterministic Examples.query Examples.index
             Examples.swappedIndex).
    + apply perm_swap.
    + apply run_in_order, backwards_is_an_order.
    + apply ToQueryPlan_is_run.
Defined.

(** ** The intervals of the time bucketer over a range that is not empty *)

(** The lemmas of this section are about [bucketTimeIntervals] as section
    4.1 of the spec describes it, for [start < end] and a positive width. *)

Section Coverage.

Variables (start end_ : Time) (window : Duration).
Hypothesis Hrange : start < end_.
Hypothesis Hwindow : 0 < window.

Let tis := bucketTimeIntervals start end_ window.

Lemma bucket_at (k : nat) ti :
  tis !! k = Some ti ->
  start + Z.of_nat k * window < end_
  /\ ti = NewTimeInterval (start + Z.of_nat k * window)
                          (start + (Z.of_nat k + 1) * window).
Proof.
  unfold tis. rewrite bucketTimeIntervals_lookup by done.
  case (Z.ltb_spec (start + Z.of_nat k * window) end_); [|done].
  intros Hlt [= <-]. done.
Qed.

Lemma bucket_anchored : anchoredAt start end_ window tis.
Proof. intros k. by apply bucketTimeIntervals_lookup. Qed.

Lemma bucket_no_gap t :
  start <= t < end_ ->
  exists (k : nat) ti, tis !! k = Some ti /\ withinClamped start end_ ti t.
Proof.
  intros Ht. pose proof (Z.div_mod (t - start) window ltac:(lia)) as Hdm.
  pose proof (Z.mod_pos_bound (t - start) window Hwindow) as Hmod.
  assert (Hq : 0 <= (t - start) / window) by (apply Z.div_pos; lia).
  exists (Z.to_nat ((t - start) / window)). eexists. split.
  - unfold tis. rewrite bucketTimeIntervals_lookup by done.
    rewrite Z2Nat.id by done.
    rewrite (proj2 (Z.ltb_lt _ _)) by nia. reflexivity.
  - unfold withinClamped. rewrite clampedStart_max, clampedEnd_min.
    cbn [Start End]. nia.
Qed.

Lemma bucket_no_overlap (k k' : nat) ti ti' t :
  tis !! k = Some ti -> tis !! k' = Some ti' ->
  withinClamped start end_ ti t -> withinClamped start end_ ti' t -> k = k'.
Proof.
  intros [_ ->]%bucket_at [_ ->]%bucket_at. unfold withinClamped.
  rewrite !clampedStart_max, !clampedEnd_min. cbn [Start End]. intros H H'.
  destruct (Nat.lt_trichotomy k k') as [Hlt|[Heq|Hgt]]; [|done|].
  - assert ((Z.of_nat k + 1) * window <= Z.of_nat k' * window) by nia. lia.
  - assert ((Z.of_nat k' + 1) * window <= Z.of_nat k * window) by nia. lia.
Qed.

Lemma bucket_piece (k : nat) ti :
  tis !! k = Some ti ->
  start <= clampedStart start ti /\ clampedStart start ti < clampedEnd end_ ti
  /\ clampedEnd end_ ti <= end_.
Proof.
  intros [Hlt ->]%bucket_at. rewrite clampedStart_max, clampedEnd_min.
  cbn [Start End]. nia.
Qed.

Lemma bucket_contiguous (k : nat) ti ti' :
  tis !! k = Some ti -> tis !! S k = Some ti' ->
  clampedEnd end_ ti = clampedStart start ti'.
Proof.
  intros [Hlt ->]%bucket_at [Hlt' ->]%bucket_at.
  rewrite clampedStart_max, clampedEnd_min. cbn [Start End]. nia.
Qed.

Lemma bucket_first :
  exists ti, tis !! 0%nat = Some ti /\ clampedStart start ti = start.
Proof.
  eexists. split.
  - unfold tis. rewrite bucketTimeIntervals_lookup by done.
    rewrite (proj2 (Z.ltb_lt _ _)) by lia. reflexivity.
  - rewrite clampedStart_max. cbn [Start]. lia.
Qed.

Lemma bucket_last :
  exists ti, last tis = Some ti /\ clampedEnd end_ ti = end_.
Proof.
  destruct bucket_first as (first & Hfirst & _).
  assert (Hlen : (0 < length tis)%nat) by (by apply lookup_lt_Some in Hfirst).
  destruct (lookup_lt_is_Some_2 tis (pred (length tis)) ltac:(lia)) as [ti Hti].
  exists ti. split; [by rewrite last_lookup|].
  pose proof (bucket_anchored (length tis)) as Hend.
  rewrite (lookup_ge_None_2 tis (length tis)) in Hend by lia.
  destruct (Z.ltb_spec (start + Z.of_nat (length tis) * window) end_); [done|].
  apply bucket_at in Hti as [Hlt ->]. rewrite clampedEnd_min. cbn [End]. nia.
Qed.

Lemma bucket_partitions : partitions start end_ tis.
Proof.
  split; [|split; [|split; [|split; [|split]]]].
  - apply bucket_no_gap.
  - apply bucket_no_overlap.
  - intros k ti Hti. destruct (bucket_piece k ti Hti) as (H1 & H2 & H3). lia.
  - apply bucket_contiguous.
  - apply bucket_first.
  - apply bucket_last.
Qed.

Lemma bucket_nonEmptyPieces : nonEmptyPieces start end_ tis.
Proof. intros k ti Hti. by apply (bucket_piece k). Qed.

End Coverage.

(** C5: for [start <= end], a zero width gives exactly the interval
    [start, end], and [start = end] gives exactly one interval, which is
    degenerate: it starts and ends at [start]. *)
Theorem bucketer_single_interval (start end_ : Time) (window : Duration) :
  start <= end_ ->
  (window = 0 -> bucketTimeIntervals start end_ window = [NewTimeInterval start end_])
  /\ (start = end_ ->
      exists ti, bucketTimeIntervals start end_ window = [ti]
                 /\ Start ti = start /\ End ti = start).
Proof.
  intros Hle. split.
  - intros Hw. apply bucketTimeIntervals_single. by left.
  - intros Heq. exists (NewTimeInterval start end_). split; [|by rewrite Heq].
    apply bucketTimeIntervals_single. right. lia.
Qed.

Lemma bucketer_single_interval_witness :
  (1500 <= 1800
   /\ bucketTimeIntervals 1500 1800 0 = [NewTimeInterval 1500 1800])
  /\ (7 <= 7
      /\ exists ti, bucketTimeIntervals 7 7 60 = [ti] /\ Start ti = 7 /\ End ti = 7).
Proof.
  split.
  - split; [vm_compute; discriminate|].
    apply (proj1 (bucketer_single_interval 1500 1800 0 ltac:(vm_compute; discriminate))).
    reflexivity.
  - split; [vm_compute; discriminate|].
    apply (proj2 (bucketer_single_interval 7 7 60 ltac:(vm_compute; discriminate))).
    reflexivity.
Defined.

(** ** Tag sets *)

Lemma hasTag_true s tag : hasTag s tag = true <-> tag ∈ Tags s.
Proof. unfold hasTag. apply bool_decide_eq_true. Qed.

Lemma someGroupSatisfied_true s tagSets :
  someGroupSatisfied s tagSets = true
  <-> exists tagSet, tagSet ∈ tagSets /\ forall tag, tag ∈ tagSet -> hasTag s tag = true.
Proof.
  unfold someGroupSatisfied. rewrite existsb_exists. split.
  - intros (tagSet & Hin & Hall). exists tagSet. split; [by apply list_elem_of_In|].
    intros tag Htag. rewrite forallb_forall in Hall. by apply Hall, list_elem_of_In.
  - intros (tagSet & Hin & Hall). exists tagSet. split; [by apply list_elem_of_In|].
    apply forallb_forall. intros tag Htag. by apply Hall, list_elem_of_In.
Qed.

(** The examples of section 8: the second group is satisfied; and a series
    with the tag a=1 alone satisfies no group. *)
Example seriesCD_matches : MatchesTagSets Examples.seriesCD Examples.tagSets = true.
Proof. vm_compute. reflexivity. Qed.

Example seriesA1_does_not_match :
  MatchesTagSets MoreExamples.seriesA1 Examples.tagSets = false.
Proof. vm_compute. reflexivity. Qed.

(** C2: a series passes the tag-set test for a filter with at least one
    group if and only if some group of the filter has all its tags in the
    tag set of the series (OR of ANDs); and a filter without groups matches
    every series. *)
Theorem MatchesTagSets_or_of_ands (s : Series) (tagSets : list (list string)) :
  (tagSets <> [] ->
   (MatchesTagSets s tagSets = true
    <-> exists tagSet,
          tagSet ∈ tagSets /\ forall tag, tag ∈ tagSet -> tag ∈ Tags s))
  /\ MatchesTagSets s [] = true
  /\ (MatchesTagSets s tagSets = true
      <-> tagSets = []
          \/ exists tagSet,
               tagSet ∈ tagSets /\ forall tag, tag ∈ tagSet -> tag ∈ Tags s).
Proof.
  assert (Hgroups : someGroupSatisfied s tagSets = true
                    <-> exists tagSet,
                          tagSet ∈ tagSets /\ forall tag, tag ∈ tagSet -> tag ∈ Tags s).
  { rewrite someGroupSatisfied_true. split.
    - intros (tagSet & Hin & Hall). exists tagSet. split; [done|].
      intros tag Htag. by apply hasTag_true, Hall.
    - intros (tagSet & Hin & Hall). exists tagSet. split; [done|].
      intros tag Htag. by apply hasTag_true, Hall. }
  split; [|split; [reflexivity|]].
  - intros Hne. destruct tagSets as [|tagSet tagSets]; [done|]. exact Hgroups.
  - destruct tagSets as [|tagSet tagSets].
    + split; [by left | reflexivity].
    + cbn [MatchesTagSets]. rewrite Hgroups. split; [by right|].
      by intros [?|?].
Qed.

Lemma MatchesTagSets_or_of_ands_witness :
  Examples.tagSets <> []
  /\ (MatchesTagSets Examples.seriesCD Examples.tagSets = true
      <-> exists tagSet,
            tagSet ∈ Examples.tagSets
            /\ forall tag, tag ∈ tagSet -> tag ∈ Tags Examples.seriesCD).
Proof.
  assert (Hne : Examples.tagSets <> []) by discriminate.
  split; [exact Hne|].
  exact (proj1 (MatchesTagSets_or_of_ands Examples.seriesCD Examples.tagSets) Hne).
Defined.

(** * Further properties of [ToQueryPlan] and [NewCQLQuery] *)

(** ** The buckets for any list of intervals *)

(** [ToQueryPlan] hands [cqlBucketsFor] to [NewQueryPlan], in every run. *)
Lemma ToQueryPlan_cqlBucketsFor q csi :
  ToQueryPlan q csi
  = NewQueryPlan (AggregationType q)
      (cqlBucketsFor q (bucketsOf q) (CopyOfSeriesCollection csi)).
Proof. reflexivity. Qed.

Lemma run_cqlBucketsFor q csi res :
  ToQueryPlan_run q csi res ->
  res = NewQueryPlan (AggregationType q)
          (cqlBucketsFor q (bucketsOf q) (CopyOfSeriesCollection csi)).
Proof. intros Hrun. by apply run_ToQueryPlan in Hrun. Qed.

Lemma cqlBucketsFor_lookup q tis seriesChoices ti :
  cqlBucketsFor q tis seriesChoices !! ti
  = if bool_decide (ti ∈ tis)
    then Some (cqlQueries q ti (placed q tis ti seriesChoices))
    else None.
Proof.
  unfold cqlBucketsFor.
  rewrite (cqlBucketsOf_lookup q (bucketSeries q tis seriesChoices)) by done.
  rewrite bucketSeries_lookup. by case_bool_decide.
Qed.

(** X3: when the intervals of the bucket list are pairwise distinct, the
    queries of a bucket are those of the series of the snapshot that pass
    the four tests, one query per such series and in the order of the
    snapshot. *)
Theorem bucket_queries_in_snapshot_order q tis seriesChoices ti :
  NoDup tis ->
  ti ∈ tis ->
  cqlBucketsFor q tis seriesChoices !! ti
  = Some (map (cqlQueryOf q ti)
            (filter (fun s => matchesBucket q ti s) seriesChoices)).
Proof.
  intros Hnd Hti. rewrite cqlBucketsFor_lookup, bool_decide_eq_true_2 by done.
  by rewrite placed_NoDup.
Qed.

Lemma bucket_queries_in_snapshot_order_witness :
  NoDup [NewTimeInterval 0 60; NewTimeInterval 60 120]
  /\ NewTimeInterval 0 60 ∈ [NewTimeInterval 0 60; NewTimeInterval 60 120]
  /\ cqlBucketsFor Examples.query [NewTimeInterval 0 60; NewTimeInterval 60 120]
       [Examples.seriesC; Examples.seriesB; Examples.seriesA] !! NewTimeInterval 0 60
     = Some (map (cqlQueryOf Examples.query (NewTimeInterval 0 60))
               (filter (fun s => matchesBucket Examples.query (NewTimeInterval 0 60) s)
                  [Examples.seriesC; Examples.seriesB; Examples.seriesA])).
Proof.
  assert (Hnd : NoDup [NewTimeInterval 0 60; NewTimeInterval 60 120]).
  { apply NoDup_cons. split; [|apply NoDup_singleton].
    intros Hin. apply list_elem_of_singleton in Hin. discriminate Hin. }
  assert (Hin : NewTimeInterval 0 60 ∈ [NewTimeInterval 0 60; NewTimeInterval 60 120])
    by left.
  split; [exact Hnd|]. split; [exact Hin|].
  exact (bucket_queries_in_snapshot_order Examples.query _
           [Examples.seriesC; Examples.seriesB; Examples.seriesA] _ Hnd Hin).
Defined.

(** X5: planning over two catalogs put end to end gives, in every bucket,
    the queries of the first catalog followed by those of the second. *)
Theorem buckets_of_concatenated_snapshots q tis seriesChoices seriesChoices' ti :
  cqlBucketsFor q tis (seriesChoices ++ seriesChoices') !! ti
  = match cqlBucketsFor q tis seriesChoices !! ti,
          cqlBucketsFor q tis seriesChoices' !! ti with
    | Some queries, Some queries' => Some (queries ++ queries')
    | _, _ => None
    end.
Proof.
  rewrite !cqlBucketsFor_lookup. case_bool_decide; [|done].
  unfold cqlQueries, placed. by rewrite bind_app, map_app.
Qed.

(** ** The rows a query reads *)

Lemma int64_range_max a b : int64_range a -> int64_range b -> int64_range (Z.max a b).
Proof. unfold int64_range. lia. Qed.

Lemma int64_range_min a b : int64_range a -> int64_range b -> int64_range (Z.min a b).
Proof. unfold int64_range. lia. Qed.

(** For times that fit an [int64], the query of a series in a bucket reads
    the timestamps that are in the bucket and in the range of the query. *)
Lemma readsTimestamp_cqlQueryOf q ti ser t :
  int64_range (TimeStart q) -> int64_range (TimeEnd q) ->
  int64_range (Start ti) -> int64_range (End ti) ->
  readsTimestamp (cqlQueryOf q ti ser) t = true
  <-> (Start ti <= t < End ti) /\ (TimeStart q <= t < TimeEnd q).
Proof.
  intros Hqs Hqe Hs He. unfold readsTimestamp. rewrite cqlQueryOf_Args.
  rewrite !UnixNano_int64 by auto using int64_range_max, int64_range_min.
  rewrite andb_true_iff, Z.leb_le, Z.ltb_lt. lia.
Qed.

Lemma elem_of_bucket q tis seriesChoices ti queries cq :
  cqlBucketsFor q tis seriesChoices !! ti = Some queries ->
  cq ∈ queries ->
  exists ser, ser ∈ seriesChoices /\ matchesBucket q ti ser = true
              /\ cq = cqlQueryOf q ti ser.
Proof.
  rewrite cqlBucketsFor_lookup. case_bool_decide as Hti; [|done].
  intros [= <-] Hcq. unfold cqlQueries in Hcq.
  apply list_elem_of_fmap in Hcq as (ser & -> & Hser).
  apply elem_of_placed in Hser as [Hser Hm]; [|done]. by exists ser.
Qed.

(** X1: when the bounds of the query and of the bucket fit an [int64], a
    query of the bucket reads exactly the timestamps that lie both in the
    bucket and in the range of the query, each taken with its start and
    without its end; so a bucket that does not meet the range reads none. *)
Theorem bucket_query_reads_the_intersection q tis seriesChoices ti queries cq t :
  cqlBucketsFor q tis seriesChoices !! ti = Some queries ->
  cq ∈ queries ->
  int64_range (TimeStart q) -> int64_range (TimeEnd q) ->
  int64_range (Start ti) -> int64_range (End ti) ->
  readsTimestamp cq t = true
  <-> (Start ti <= t < End ti) /\ (TimeStart q <= t < TimeEnd q).
Proof.
  intros Hq Hcq Hqs Hqe Hs He.
  destruct (elem_of_bucket _ _ _ _ _ _ Hq Hcq) as (ser & _ & _ & ->).
  by apply readsTimestamp_cqlQueryOf.
Qed.

Lemma bucket_query_reads_the_intersection_witness :
  readsTimestamp (NewCQLQuery "avg" "cpu" "s1" 1500 1800) 1500 = true
  <-> (1000 <= 1500 < 2000) /\ (1500 <= 1500 < 1800).
Proof.
  apply (bucket_query_reads_the_intersection Examples.narrowQuery
           [NewTimeInterval 1000 2000] [Examples.s1] (NewTimeInterval 1000 2000)
           [NewCQLQuery "avg" "cpu" "s1" 1500 1800]).
  - vm_compute; reflexivity.
  - apply list_elem_of_singleton; reflexivity.
  - vm_compute. split; [discriminate | reflexivity].
  - vm_compute. split; [discriminate | reflexivity].
  - vm_compute. split; [discriminate | reflexivity].
  - vm_compute. split; [discriminate | reflexivity].
Defined.

(** X2: when the bounds fit an [int64], the queries of two buckets of which
    one ends where or before the other starts never read the same
    timestamp: no row is counted for both buckets. *)
Theorem disjoint_buckets_read_disjoint_rows
    q tis seriesChoices ti ti' queries queries' cq cq' t :
  cqlBucketsFor q tis seriesChoices !! ti = Some queries ->
  cqlBucketsFor q tis seriesChoices !! ti' = Some queries' ->
  cq ∈ queries -> cq' ∈ queries' ->
  End ti <= Start ti' ->
  int64_range (TimeStart q) -> int64_range (TimeEnd q) ->
  int64_range (Start ti) -> int64_range (End ti) ->
  int64_range (Start ti') -> int64_range (End ti') ->
  readsTimestamp cq t = true -> readsTimestamp cq' t = false.
Proof.
  intros Hq Hq' Hcq Hcq' Hdisj Hqs Hqe Hs He Hs' He' Hreads.
  destruct (elem_of_bucket _ _ _ _ _ _ Hq Hcq) as (ser & _ & _ & ->).
  destruct (elem_of_bucket _ _ _ _ _ _ Hq' Hcq') as (ser' & _ & _ & ->).
  apply readsTimestamp_cqlQueryOf in Hreads; [|done..].
  apply not_true_is_false. intros Hreads'.
  apply readsTimestamp_cqlQueryOf in Hreads'; [|done..]. lia.
Qed.

Lemma disjoint_buckets_read_disjoint_rows_witness :
  readsTimestamp (NewCQLQuery "avg" "cpu" "A" 0 60) 59 = true
  /\ readsTimestamp (NewCQLQuery "avg" "cpu" "A" 60 120) 59 = false.
Proof.
  assert (H : readsTimestamp (NewCQLQuery "avg" "cpu" "A" 0 60) 59 = true) by reflexivity.
  split; [exact H|].
  apply (disjoint_buckets_read_disjoint_rows Examples.query
           [NewTimeInterval 0 60; NewTimeInterval 60 120] [Examples.seriesA]
           (NewTimeInterval 0 60) (NewTimeInterval 60 120)
           [NewCQLQuery "avg" "cpu" "A" 0 60] [NewCQLQuery "avg" "cpu" "A" 60 120]
           (NewCQLQuery "avg" "cpu" "A" 0 60) (NewCQLQuery "avg" "cpu" "A" 60 120)).
  - vm_compute; reflexivity.
  - vm_compute; reflexivity.
  - apply list_elem_of_singleton; reflexivity.
  - apply list_elem_of_singleton; reflexivity.
  - vm_compute; discriminate.
  - vm_compute. split; [discriminate | reflexivity].
  - vm_compute. split; [discriminate | reflexivity].
  - vm_compute. split; [discriminate | reflexivity].
  - vm_compute. split; [discriminate | reflexivity].
  - vm_compute. split; [discriminate | reflexivity].
  - vm_compute. split; [discriminate | reflexivity].
  - exact H.
Defined.

(** ** The text of a statement *)

Lemma length_append (s1 s2 : string) :
  String.length (s1 +:+ s2) = (String.length s1 + String.length s2)%nat.
Proof.
  induction s1 as [|c s1 IH]; [done|].
  change (S (String.length (s1 +:+ s2)) = S (String.length s1 + String.length s2)).
  by rewrite IH.
Qed.

Lemma append_cancel_l (p s1 s2 : string) : p +:+ s1 = p +:+ s2 -> s1 = s2.
Proof.
  induction p as [|c p IH]; [done|]. intros H.
  change (String c (p +:+ s1) = String c (p +:+ s2)) in H.
  injection H as H. by apply IH.
Qed.

Lemma append_cancel_r (s1 s2 w : string) : s1 +:+ w = s2 +:+ w -> s1 = s2.
Proof.
  revert s2. induction s1 as [|c s1 IH]; intros [|c' s2] H; [done| | |].
  - apply (f_equal String.length) in H. rewrite !length_append in H.
    cbn [String.length] in H. lia.
  - apply (f_equal String.length) in H. rewrite !length_append in H.
    cbn [String.length] in H. lia.
  - change (String c (s1 +:+ w) = String c' (s2 +:+ w)) in H.
    injection H as -> H. f_equal. by apply IH.
Qed.

Lemma statementText_table aggrLabel tableName tableName' :
  statementText aggrLabel tableName = statementText aggrLabel tableName' ->
  tableName = tableName'.
Proof.
  unfold statementText. intros H.
  do 3 apply append_cancel_l in H. by apply append_cancel_r in H.
Qed.

Lemma statementText_label aggrLabel aggrLabel' tableName :
  statementText aggrLabel tableName = statementText aggrLabel' tableName ->
  aggrLabel = aggrLabel'.
Proof.
  unfold statementText. intros H.
  apply append_cancel_l in H. by apply append_cancel_r in H.
Qed.

(** X6: for one aggregation label, two statements have the same text
    exactly when they name the same table, and for one table exactly when
    they carry the same label: with the label of a query fixed, a prepared
    statement can be kept per table. *)
Theorem statement_text_tells_table_and_label
    (aggrLabel aggrLabel' tableName tableName' rowName rowName' : string)
    (timeStartNanos timeEndNanos timeStartNanos' timeEndNanos' : Z) :
  (PreparableQueryString
     (NewCQLQuery aggrLabel tableName rowName timeStartNanos timeEndNanos)
   = PreparableQueryString
       (NewCQLQuery aggrLabel tableName' rowName' timeStartNanos' timeEndNanos')
   <-> tableName = tableName')
  /\ (PreparableQueryString
        (NewCQLQuery aggrLabel tableName rowName timeStartNanos timeEndNanos)
      = PreparableQueryString
          (NewCQLQuery aggrLabel' tableName rowName' timeStartNanos' timeEndNanos')
      <-> aggrLabel = aggrLabel').
Proof.
  unfold NewCQLQuery. cbn [PreparableQueryString]. split; split.
  - apply statementText_table.
  - by intros ->.
  - apply statementText_label.
  - by intros ->.
Qed.

(** X7: the label and the table are written into the text as they are, so
    the text does not tell them apart: moving the words ["(value) FROM "]
    and what follows them from the label to the table gives another pair of
    label and table with the same statement text. *)
Theorem statement_text_can_collide (aggrLabel tableName rest : string) :
  statementText (aggrLabel +:+ "(value) FROM " +:+ tableName) rest
  = statementText aggrLabel (tableName +:+ "(value) FROM " +:+ rest)
  /\ aggrLabel +:+ "(value) FROM " +:+ tableName <> aggrLabel.
Proof.
  split.
  - unfold statementText. by rewrite !append_assoc.
  - intros H. apply (f_equal String.length) in H.
    rewrite !length_append in H. cbn [String.length] in H. lia.
Qed.

Lemma placeholderContexts_length acc acc' s :
  length (placeholderContexts acc s) = length (placeholderContexts acc' s).
Proof.
  revert acc acc'. induction s as [|c s IH]; intros acc acc'; [done|].
  cbn [placeholderContexts]. destruct (Ascii.eqb c "?"); cbn [length]; auto.
Qed.

Lemma placeholderContexts_append acc s1 s2 :
  length (placeholderContexts acc (s1 +:+ s2))
  = (length (placeholderContexts acc s1)
     + length (placeholderContexts EmptyString s2))%nat.
Proof.
  revert acc. induction s1 as [|c s1 IH]; intros acc.
  - change (EmptyString +:+ s2) with s2. cbn [placeholderContexts length].
    apply placeholderContexts_length.
  - change (String c s1 +:+ s2) with (String c (s1 +:+ s2)).
    cbn [placeholderContexts]. destruct (Ascii.eqb c "?"); cbn [length].
    + rewrite IH. lia.
    + by rewrite IH.
Qed.

Lemma placeholders_append s1 s2 :
  placeholders (s1 +:+ s2) = (placeholders s1 + placeholders s2)%nat.
Proof. apply placeholderContexts_append. Qed.

(** X8: the text of a statement holds three placeholders besides those that
    the label and the table name bring in; it has as many placeholders as
    the query has arguments exactly when neither the label nor the table
    name contains a [?]. *)
Theorem statement_placeholders_and_arguments
    (aggrLabel tableName rowName : string) (timeStartNanos timeEndNanos : Z) :
  placeholders
    (PreparableQueryString
       (NewCQLQuery aggrLabel tableName rowName timeStartNanos timeEndNanos))
  = (3 + placeholders aggrLabel + placeholders tableName)%nat
  /\ (placeholders
        (PreparableQueryString
           (NewCQLQuery aggrLabel tableName rowName timeStartNanos timeEndNanos))
      = length (Args (NewCQLQuery aggrLabel tableName rowName timeStartNanos timeEndNanos))
      <-> placeholders aggrLabel = 0%nat /\ placeholders tableName = 0%nat).
Proof.
  assert (Hcount : placeholders (statementText aggrLabel tableName)
                   = (3 + placeholders aggrLabel + placeholders tableName)%nat).
  { unfold statementText. rewrite !placeholders_append.
    change (placeholders "SELECT ") with 0%nat.
    change (placeholders "(value) FROM ") with 0%nat.
    change (placeholders whereClause) with 3%nat. lia. }
  unfold NewCQLQuery. cbn [PreparableQueryString Args length].
  split; [exact Hcount|]. rewrite Hcount. lia.
Qed.

(** ** Distinct series, distinct queries *)

Lemma cqlQueryOf_rowOf q ti ser ser' :
  cqlQueryOf q ti ser = cqlQueryOf q ti ser' -> rowOf ser = rowOf ser'.
Proof.
  unfold cqlQueryOf, NewCQLQuery, rowOf. intros Heq.
  pose proof (f_equal PreparableQueryString Heq) as Htext.
  pose proof (f_equal Args Heq) as Hargs. cbn [PreparableQueryString Args] in *.
  apply statementText_table in Htext. injection Hargs as Hid. congruence.
Qed.

Lemma NoDup_fmap_elem {A B : Type} (f : A -> B) (l : list A) x y :
  NoDup (f <$> l) -> x ∈ l -> y ∈ l -> f x = f y -> x = y.
Proof.
  intros Hnd [i Hi]%list_elem_of_lookup [j Hj]%list_elem_of_lookup Hf.
  assert (i = j) as ->.
  { apply (proj1 (NoDup_alt (f <$> l)) Hnd i j (f x)).
    - by rewrite list_lookup_fmap, Hi.
    - by rewrite list_lookup_fmap, Hj, Hf. }
  congruence.
Qed.

(** X9: when the intervals of the bucket list are pairwise distinct and no
    two series of the snapshot are stored under the same table and row, no
    bucket holds the same query twice. *)
Theorem bucket_queries_are_distinct q tis seriesChoices ti queries :
  NoDup tis ->
  NoDup (rowOf <$> seriesChoices) ->
  cqlBucketsFor q tis seriesChoices !! ti = Some queries ->
  NoDup queries.
Proof.
  intros Hnd Hrows. rewrite cqlBucketsFor_lookup.
  case_bool_decide as Hti; [|done]. intros [= <-].
  rewrite placed_NoDup by done. unfold cqlQueries.
  apply (NoDup_fmap_2_strong (cqlQueryOf q ti)).
  - intros s s' [_ Hs]%list_elem_of_filter [_ Hs']%list_elem_of_filter Heq.
    apply (NoDup_fmap_elem rowOf seriesChoices); [done..|].
    by apply (cqlQueryOf_rowOf q ti).
  - apply NoDup_filter. by apply (NoDup_fmap_1 rowOf).
Qed.

Lemma bucket_queries_are_distinct_witness :
  NoDup [NewCQLQuery "avg" "cpu" "C" 0 60; NewCQLQuery "avg" "cpu" "A" 0 60].
Proof.
  apply (bucket_queries_are_distinct Examples.query
           [NewTimeInterval 0 60; NewTimeInterval 60 120]
           [Examples.seriesC; Examples.seriesB; Examples.seriesA]
           (NewTimeInterval 0 60)).
  - apply NoDup_cons. split; [|apply NoDup_singleton].
    intros Hin. apply list_elem_of_singleton in Hin. discriminate Hin.
  - apply NoDup_cons. split.
    { intros Hin. apply elem_of_cons in Hin as [Hin|Hin]; [discriminate Hin|].
      apply list_elem_of_singleton in Hin. discriminate Hin. }
    apply NoDup_cons. split; [|apply NoDup_singleton].
    intros Hin. apply list_elem_of_singleton in Hin. discriminate Hin.
  - vm_compute; reflexivity.
Defined.

(** ** What a query is read for *)

Lemma placed_ext q q' tis ti seriesChoices :
  (forall s, matchesBucket q ti s = matchesBucket q' ti s) ->
  placed q tis ti seriesChoices = placed q' tis ti seriesChoices.
Proof.
  intros Hext. induction seriesChoices as [|s ss IH]; [done|].
  unfold placed. cbn [mbind list_bind]. fold (placed q tis ti ss) (placed q' tis ti ss).
  by rewrite Hext, IH.
Qed.

(** X10: the label, the description and the id of a query are never read,
    and its aggregation type enters the text of the statements only: two
    queries with the same measurement, field, tag sets and time range put
    the same series in every bucket and bind the same arguments; with the
    same aggregation type as well, their buckets are the same. *)
Theorem arguments_ignore_labels_and_aggregation q q' tis seriesChoices ti :
  MeasurementName q = MeasurementName q' ->
  FieldName q = FieldName q' ->
  TagSets q = TagSets q' ->
  TimeStart q = TimeStart q' ->
  TimeEnd q = TimeEnd q' ->
  bucketSeries q tis seriesChoices !! ti = bucketSeries q' tis seriesChoices !! ti
  /\ map Args <$> cqlBucketsFor q tis seriesChoices !! ti
     = map Args <$> cqlBucketsFor q' tis seriesChoices !! ti
  /\ (AggregationType q = AggregationType q' ->
      cqlBucketsFor q tis seriesChoices !! ti
      = cqlBucketsFor q' tis seriesChoices !! ti).
Proof.
  intros Hm Hf Ht Hs He.
  assert (Hplaced : placed q tis ti seriesChoices = placed q' tis ti seriesChoices).
  { apply placed_ext. intros s. unfold matchesBucket, matchesQuery.
    by rewrite Hm, Hf, Ht. }
  rewrite !bucketSeries_lookup, !cqlBucketsFor_lookup, Hplaced.
  split; [done|]. case_bool_decide; [|done]. cbn [fmap option_fmap option_map].
  unfold cqlQueries. split.
  - f_equal. rewrite !map_map. apply map_ext. intros s.
    rewrite !cqlQueryOf_Args. by rewrite Hs, He.
  - intros Ha. f_equal. apply map_ext. intros s. unfold cqlQueryOf.
    by rewrite Ha, Hs, He.
Qed.

Lemma arguments_ignore_labels_and_aggregation_witness :
  map Args <$> cqlBucketsFor Examples.query [NewTimeInterval 0 60] [Examples.seriesA]
                 !! NewTimeInterval 0 60
  = map Args <$> cqlBucketsFor MoreExamples.sumQuery [NewTimeInterval 0 60] [Examples.seriesA]
                   !! NewTimeInterval 0 60
  /\ map Args <$> cqlBucketsFor Examples.query [NewTimeInterval 0 60] [Examples.seriesA]
                    !! NewTimeInterval 0 60
     = Some [[ArgString "A"; ArgInt64 0; ArgInt64 60]].
Proof.
  split; [|vm_compute; reflexivity].
  apply (arguments_ignore_labels_and_aggregation Examples.query MoreExamples.sumQuery
           [NewTimeInterval 0 60] [Examples.seriesA] (NewTimeInterval 0 60));
    reflexivity.
Defined.
